(** * PySeqsee: the controller run loop, the category base class and
      the start-up checks of [Main], embedded in Rocq.

    The development follows the three source files

    - [farg/categorization/category.py]  (module [category]),
    - [tide/controller.py]               (module [controller]),
    - [farg/core/main.py]                (module [main]),

    and the collaborators they import but which are not among these
    sources ([farg.exceptions], [farg.meta], [farg.util], [farg.codelet],
    [farg.coderack]).  Python objects are records, mutation is explicit
    state passing, and a raised exception is an outcome of its own that
    carries the state reached when it was raised. *)

From Stdlib Require Import QArith Lia.
From stdpp Require Import base option list strings gmap.

Set Default Proof Using "Type".

(* ===================================================================== *)
(** * Part I: definitions                                                 *)
(* ===================================================================== *)

(** ** farg.exceptions *)

Module exceptions.

(** The exception classes the three files raise, catch or let through.
    [FargException] is the class named by the [except] clause of
    [Controller.Step]; [FargError] is what the base [Category] raises;
    [EmptyCoderackError] is the failure of a draw from an empty
    coderack; [SystemExit] is what [sys.exit] raises; every class
    outside those hierarchies is an [OtherException] tagged with its
    class name. *)
Inductive Exn : Type :=
| FargException (detail : string)
| FargError (message : string)
| EmptyCoderackError
| SystemExit (code : Z)
| OtherException (class_name : string).

(** [isinstance(e, FargException)]. *)
Definition is_FargException (e : Exn) : bool :=
  match e with
  | FargException _ => true
  | _ => false
  end.

(** [isinstance(e, FargError)]. *)
Definition is_FargError (e : Exn) : bool :=
  match e with
  | FargError _ => true
  | _ => false
  end.

(** A call either returns a value or raises; both leave a state behind
    (Python does not roll back mutations when an exception unwinds). *)
Inductive Outcome (St A : Type) : Type :=
| Returned (a : A) (s : St)
| Raised (e : Exn) (s : St).
Arguments Returned {St A} a s.
Arguments Raised {St A} e s.

Definition final {St A} (o : Outcome St A) : St :=
  match o with
  | Returned _ s => s
  | Raised _ s => s
  end.

Definition returns {St A} (o : Outcome St A) : bool :=
  match o with
  | Returned _ _ => true
  | Raised _ _ => false
  end.

(** Stateful, fallible computations over a state [St]. *)
Definition M (St A : Type) : Type := St -> Outcome St A.

Definition ret {St A} (a : A) : M St A := fun s => Returned a s.

Definition raise {St A} (e : Exn) : M St A := fun s => Raised e s.

Definition bind {St A B} (c : M St A) (k : A -> M St B) : M St B :=
  fun s =>
    match c s with
    | Returned a s' => k a s'
    | Raised e s' => Raised e s'
    end.

(** [try: body / except <class selected by catches> as e: handler(e)]. *)
Definition try_except {St A} (body : M St A) (catches : Exn -> bool)
    (handler : Exn -> M St A) : M St A :=
  fun s =>
    match body s with
    | Returned a s' => Returned a s'
    | Raised e s' => if catches e then handler e s' else Raised e s'
    end.

Definition get {St} : M St St := fun s => Returned s s.
Definition modify {St} (f : St -> St) : M St unit := fun s => Returned tt (f s).

End exceptions.
Export exceptions.

Declare Scope py_scope.
Delimit Scope py_scope with py.
Notation "x <~ c ;; k" := (bind c (fun x => k))
  (at level 100, c at next level, right associativity) : py_scope.
Notation "c ;;; k" := (bind c (fun _ => k))
  (at level 100, right associativity) : py_scope.

(** ** farg.meta: the memoized constructor *)

Module meta.
Section Store.
Context {K : Type} `{Countable K}.

(** Modelled from the spec: [farg.meta.MemoizedConstructor] is missing
    from the sources.  Section 4.1 describes it as a content-addressed
    cache from construction keys to instances.  An instance is
    represented by its object identity (a [nat], the position at which
    it was allocated), so that Python's [is] is equality of
    identities. *)
Record Store : Type := {
  memo : gmap K nat;
  next_id : nat
}.

Definition empty_store : Store := {| memo := ∅; next_id := 0 |}.

Inductive ConstructionError : Type := construction_error.

(** Modelled from the spec: [GetOrCreate(constructor_key)] of the missing
    [farg.meta] returns the instance built earlier for an equal key if
    there is one, and otherwise builds, registers and returns a new one;
    a key whose content is invalid fails with a construction error and
    registers nothing. *)
Definition GetOrCreate (valid : K -> bool) (k : K) (st : Store)
    : (ConstructionError + nat) * Store :=
  match memo st !! k with
  | Some obj => (inr obj, st)
  | None =>
      if valid k
      then (inr (next_id st),
            {| memo := <[k := next_id st]> (memo st);
               next_id := S (next_id st) |})
      else (inl construction_error, st)
  end.

(** One store lifetime: the keys submitted, in order, to one store;
    the answers come back in the same order. *)
Fixpoint lifetime (valid : K -> bool) (ks : list K) (st : Store)
    : list (ConstructionError + nat) :=
  match ks with
  | [] => []
  | k :: ks' =>
      let '(r, st') := GetOrCreate valid k st in
      r :: lifetime valid ks' st'
  end.

(** Every registered identity was allocated before [next_id]. *)
Definition store_ok (st : Store) : Prop :=
  ∀ k obj, memo st !! k = Some obj → obj < next_id st.

End Store.
Arguments Store K {_ _}.
End meta.

(** ** farg/categorization/category.py *)

Module category.

(** The structural content handed to a category's constructor: the
    name of the variant (the Python class) and its arguments. *)
Definition Content : Type := string * list string.

(** A constructed category is known by its object identity. *)
Definition Category : Type := nat.

(** The objects of the interpreter as far as categories go: every
    constructed category lives in the heap under its identity, with the
    content it was constructed from. *)
Record Heap : Type := {
  objects : gmap nat Content;
  next_object : nat
}.

Definition empty_heap : Heap := {| objects := ∅; next_object := 0 |}.

(** Line 34 of the class body, [__metaclass__ = MemoizedConstructor].
    The repository is Python 3 ([controller.py] has keyword-only
    parameters), and there a name bound in a class body is a class
    attribute like any other, whatever it is called: the metaclass of
    [Category] remains [type]. *)
Definition __metaclass__ : string := "MemoizedConstructor".

(** [Category(...)]: the call of a class whose metaclass is [type]
    makes a new object on every call, whatever the content; the
    memoized constructor of [farg.meta] is never consulted. *)
Definition construct (content : Content) (h : Heap) : Category * Heap :=
  (next_object h,
   {| objects := <[next_object h := content]> (objects h);
      next_object := S (next_object h) |}).

(** Categorizable items, bindings and mappings are opaque here: the
    base class never inspects them. *)
Definition Categorizable : Type := string.
Definition Binding : Type := list (string * string).
Definition Mapping : Type := string.

(** A method of the base class either returns or raises. *)
Definition Result (A : Type) : Type := Exn + A.

Definition IsInstance (self : Category) (object : Categorizable)
    : Result (option Binding) :=
  inl (FargError "IsInstance makes no sense on base category.").

Definition FindMapping (self : Category)
    (categorizable1 categorizable2 : Categorizable)
    : Result (option Mapping) :=
  inl (FargError "IsInstance makes no sense on base category.").

Definition ApplyMapping (self : Category) (categorizable : Categorizable)
    (mapping : Mapping) : Result Categorizable :=
  inl (FargError "IsInstance makes no sense on base category.").

End category.

(** ** farg.util: the random source *)

Module util.

(** Modelled from the spec: Python's [random] module is missing from the
    sources.  Its state is an infinite tape of draws from the unit
    interval together with the position of the next draw; quantifying
    over the tape quantifies over every way chance can fall. *)
Record Rng : Type := {
  tape : nat -> Q;
  cursor : nat
}.

Definition random (r : Rng) : Q * Rng :=
  (tape r (cursor r), {| tape := tape r; cursor := S (cursor r) |}).

(** Modelled from the spec: [farg.util.Toss] is missing from the sources;
    it is a weighted coin flip that comes up true with the given
    probability. *)
Definition Toss (x : Q) (r : Rng) : bool * Rng :=
  let '(u, r') := random r in (Qle_bool u x, r').

End util.

(** ** farg.codelet *)

Module codelet.

(** A codelet family is named by an opaque identifier. *)
Definition Family : Type := string.

(** Modelled from the spec: [farg.codelet.Codelet] is missing from the
    sources; section 3 gives its attributes: a family, an urgency and a
    bag of bound arguments (the back-reference to the owning controller
    is the state the codelet is run in). *)
Record Codelet : Type := {
  family : Family;
  urgency : Q;
  args : list (string * string)
}.

End codelet.

(** ** farg.coderack *)

Module coderack.
Import util codelet.

(** Modelled from the spec: [farg.coderack.Coderack] is missing from the
    sources; section 3 describes a multiset of codelets bounded by a
    configured capacity. *)
Record Coderack : Type := {
  _codelets : list Codelet;
  _max_capacity : nat
}.

(** Modelled from the spec: [IsEmpty] of the missing coderack. *)
Definition IsEmpty (rack : Coderack) : bool :=
  match _codelets rack with
  | [] => true
  | _ :: _ => false
  end.

Definition total_weight (w : Codelet -> Q) (l : list Codelet) : Q :=
  foldr (fun c acc => (w c + acc)%Q) 0%Q l.

(** Modelled from the spec: the weighted choice of the missing coderack
    (selection with probability proportional to weight).  The members
    are walked with a point [x] of the interval [0, total weight): the
    member whose stretch of the interval contains [x] is taken out.  A
    point beyond the end takes the last member. *)
Fixpoint pick (w : Codelet -> Q) (x : Q) (l : list Codelet)
    : option (Codelet * list Codelet) :=
  match l with
  | [] => None
  | c :: rest =>
      match rest with
      | [] => Some (c, [])
      | _ :: _ =>
          if Qlt_le_dec x (w c) then Some (c, rest)
          else match pick w (x - w c)%Q rest with
               | Some (d, rest') => Some (d, c :: rest')
               | None => Some (c, rest)
               end
      end
  end.

(** Modelled from the spec: one weighted-random draw with removal. *)
Definition weighted_draw (w : Codelet -> Q) (l : list Codelet) (r : Rng)
    : option (Codelet * list Codelet) * Rng :=
  let '(u, r') := random r in
  (pick w (u * total_weight w l)%Q l, r').

(** Modelled from the spec: [GetCodelet] of the missing coderack fails
    with an empty-coderack error when there is nothing to draw, and
    otherwise removes and returns one member drawn with probability
    proportional to its urgency. *)
Definition GetCodelet (rack : Coderack) (r : Rng)
    : Exn + (Codelet * Coderack * Rng) :=
  if IsEmpty rack then inl EmptyCoderackError
  else
    match weighted_draw urgency (_codelets rack) r with
    | (Some (c, rest), r') =>
        inr (c, {| _codelets := rest; _max_capacity := _max_capacity rack |}, r')
    | (None, _) => inl EmptyCoderackError
    end.

Definition insert_codelet (c : Codelet) (rack : Coderack) : Coderack :=
  {| _codelets := c :: _codelets rack; _max_capacity := _max_capacity rack |}.

(** Modelled from the spec: the eviction step of the missing coderack.
    One existing member is removed by a weighted-random draw; the curve
    that turns an urgency into an eviction weight is left open by the
    spec and is a parameter.  With no member there is nothing to evict
    and chance is not consulted. *)
Definition evict_one (eviction_weight : Q -> Q)
    (rack : Coderack) (r : Rng) : Coderack * Rng :=
  if IsEmpty rack then (rack, r)
  else
    match weighted_draw (fun d => eviction_weight (urgency d))
            (_codelets rack) r with
    | (Some (_, rest), r') =>
        ({| _codelets := rest; _max_capacity := _max_capacity rack |}, r')
    | (None, r') => (rack, r')
    end.

(** Modelled from the spec: [AddCodelet] of the missing coderack.  When
    the addition would exceed the capacity, one existing member is
    evicted first; the new codelet is then inserted. *)
Definition AddCodelet (eviction_weight : Q -> Q) (c : Codelet)
    (rack : Coderack) (r : Rng) : Coderack * Rng :=
  if decide (_max_capacity rack <= length (_codelets rack))%nat then
    let '(rack', r') := evict_one eviction_weight rack r in
    (insert_codelet c rack', r')
  else (insert_codelet c rack, r).

End coderack.

(** ** tide/controller.py *)

Module controller.
Import util codelet coderack.

(** Python truthiness of an attribute that is [None] or a string. *)
Definition truthy (o : option string) : bool :=
  match o with
  | None => false
  | Some s => negb (String.eqb s "")
  end.

(** Modelled from the spec: [farg.ltm] is missing from the sources.  Of
    a long-term memory the controller touches the simulated-time
    counter only; the nodes are carried along untouched.  An attached
    memory counts as true in [if self.ltm]. *)
Record LTM : Type := {
  _timesteps : nat;
  nodes : list string
}.

(** The attributes [__init__] gives a controller, and next to them the
    state of the random source, which the controller's methods consult
    through [Toss] and through the coderack. *)
Record Controller : Type := {
  coderack : Coderack;
  stream : list string;
  ltm : option LTM;
  steps_taken : nat;
  ui : list string;
  rng : Rng
}.

Definition set_coderack (rack : Coderack) (s : Controller) : Controller :=
  {| coderack := rack; stream := stream s; ltm := ltm s;
     steps_taken := steps_taken s; ui := ui s; rng := rng s |}.

Definition set_ltm (l : option LTM) (s : Controller) : Controller :=
  {| coderack := coderack s; stream := stream s; ltm := l;
     steps_taken := steps_taken s; ui := ui s; rng := rng s |}.

Definition set_steps_taken (n : nat) (s : Controller) : Controller :=
  {| coderack := coderack s; stream := stream s; ltm := ltm s;
     steps_taken := n; ui := ui s; rng := rng s |}.

Definition set_ui (u : list string) (s : Controller) : Controller :=
  {| coderack := coderack s; stream := stream s; ltm := ltm s;
     steps_taken := steps_taken s; ui := u; rng := rng s |}.

Definition set_rng (r : Rng) (s : Controller) : Controller :=
  {| coderack := coderack s; stream := stream s; ltm := ltm s;
     steps_taken := steps_taken s; ui := ui s; rng := r |}.

(** What a concrete application plugs into the controller: the class
    attributes a subclass overrides, the capacity and eviction curve of
    its coderack class, the action behind [Codelet.Run] (looked up by
    family) and the handler [HandleFargException], which [Step] calls
    but [controller.py] does not define. *)
Record ControllerClass : Type := {
  routine_codelets_to_add : list (Family * Q * Q);
  ltm_name : option string;
  max_capacity : nat;
  eviction_weight : Q -> Q;
  Run : Codelet -> M Controller unit;
  HandleFargException : Exn -> M Controller unit
}.

(** Modelled from the spec: the default handler, missing from the
    sources, records the signal and lets the run continue. *)
Definition record_and_continue (e : Exn) : M Controller unit :=
  fun s =>
    match e with
    | FargException detail => Returned tt (set_ui (detail :: ui s) s)
    | _ => Returned tt s
    end.

(** [self.coderack.AddCodelet(codelet)]. *)
Definition coderack_AddCodelet (cls : ControllerClass) (c : Codelet)
    : M Controller unit :=
  fun s =>
    let '(rack', r') :=
      coderack.AddCodelet (eviction_weight cls) c (coderack s) (rng s) in
    Returned tt (set_rng r' (set_coderack rack' s)).

(** [self.coderack.GetCodelet()]. *)
Definition coderack_GetCodelet : M Controller Codelet :=
  fun s =>
    match coderack.GetCodelet (coderack s) (rng s) with
    | inl e => Raised e s
    | inr (c, rack', r') => Returned c (set_rng r' (set_coderack rack' s))
    end.

(** [Toss(probability)]. *)
Definition toss (probability : Q) : M Controller bool :=
  fun s =>
    let '(b, r') := Toss probability (rng s) in
    Returned b (set_rng r' s).

(** The [for] loop of [_AddRoutineCodelets]; [force or Toss(probability)]
    does not toss when [force] holds. *)
Fixpoint add_routine_loop (cls : ControllerClass) (force : bool)
    (triples : list (Family * Q * Q)) : M Controller unit :=
  match triples with
  | [] => ret tt
  | (family, urgency, probability) :: rest =>
      (go <~ (if force then ret true else toss probability) ;;
       (if go : bool
        then coderack_AddCodelet cls
               {| codelet.family := family; codelet.urgency := urgency;
                  args := [] |}
        else ret tt) ;;;
       add_routine_loop cls force rest)%py
  end.

Definition _AddRoutineCodelets (cls : ControllerClass) (force : bool)
    : M Controller unit :=
  fun s =>
    let force := if IsEmpty (coderack s) then true else force in
    match routine_codelets_to_add cls with
    | [] => Returned tt s
    | _ :: _ => add_routine_loop cls force (routine_codelets_to_add cls) s
    end.

(** [Controller(ui=ui)]: [ltms] stands for [LTMManager.GetLTM], [r] for
    the state of the random source at the time of the call. *)
Definition __init__ (cls : ControllerClass) (ltms : string -> LTM)
    (r : Rng) (ui : list string) : Outcome Controller unit :=
  _AddRoutineCodelets cls true
    {| coderack := {| _codelets := []; _max_capacity := max_capacity cls |};
       stream := [];
       ltm := match ltm_name cls with
              | Some name => if truthy (Some name) then Some (ltms name) else None
              | None => None
              end;
       steps_taken := 0;
       ui := ui;
       rng := r |}.

(** The first two statements of [Step]: count the step, then copy the
    count into the attached long-term memory. *)
Definition tick (s : Controller) : Controller :=
  let s1 := set_steps_taken (steps_taken s + 1) s in
  match ltm s1 with
  | Some l =>
      set_ltm (Some {| _timesteps := steps_taken s1; nodes := nodes l |}) s1
  | None => s1
  end.

(** The guarded run of one codelet: the [try] statement of [Step]. *)
Definition run_guarded (cls : ControllerClass) (c : Codelet)
    : M Controller unit :=
  try_except (Run cls c) is_FargException (HandleFargException cls).

Definition Step (cls : ControllerClass) : M Controller unit :=
  (modify tick ;;;
   _AddRoutineCodelets cls false ;;;
   s <~ get ;;
   if negb (IsEmpty (coderack s))
   then (c <~ coderack_GetCodelet ;; run_guarded cls c)
   else ret tt)%py.

(** [for _ in range(n): body]. *)
Fixpoint for_range {St} (n : nat) (body : M St unit) : M St unit :=
  match n with
  | O => ret tt
  | S n' => (body ;;; for_range n' body)%py
  end.

Definition RunUptoNSteps (cls : ControllerClass) (n_steps : Z)
    : M Controller unit :=
  for_range (Z.to_nat n_steps) (Step cls).

Definition AddCodelet (cls : ControllerClass) (family : Family)
    (urgency : Q) (arguments_dict : list (string * string))
    : M Controller unit :=
  coderack_AddCodelet cls
    {| codelet.family := family; codelet.urgency := urgency;
       args := arguments_dict |}.

(** *** Vocabulary for the statements about [Step] *)

(** The controller as [Step] has it once the step is counted and the
    routine codelets are injected, just before the emptiness test. *)
Definition prepare (cls : ControllerClass) (s : Controller) : Controller :=
  final (_AddRoutineCodelets cls false (tick s)).

(** In the call [Step] on [s], the coderack is found non-empty and the
    draw hands out [c], leaving the controller as [s3]: the state in
    which [c] is then run. *)
Definition draws (cls : ControllerClass) (s : Controller) (c : Codelet)
    (s3 : Controller) : Prop :=
  IsEmpty (coderack (prepare cls s)) = false
  ∧ coderack_GetCodelet (prepare cls s) = Returned c s3.

(** The call [Step] on [s] executes exactly one codelet: what it does
    after the draw is the guarded run of the drawn codelet and nothing
    else. *)
Definition executes_one (cls : ControllerClass) (s : Controller) : Prop :=
  ∃ c s3, draws cls s c s3 ∧ Step cls s = run_guarded cls c s3.

(** The codelet injected for a configured triple. *)
Definition codelet_of (triple : Family * Q * Q) : Codelet :=
  {| family := triple.1.1; urgency := triple.1.2; args := [] |}.

(** Every configured triple is handed to the coderack, whatever its
    probability. *)
Fixpoint inject_all (cls : ControllerClass) (triples : list (Family * Q * Q))
    (s : Controller) : Controller :=
  match triples with
  | [] => s
  | triple :: rest =>
      inject_all cls rest (final (coderack_AddCodelet cls (codelet_of triple) s))
  end.

(** The controller after [n] calls of [Step], whether a call returned or
    raised. *)
Fixpoint calls (cls : ControllerClass) (n : nat) (s : Controller)
    : Controller :=
  match n with
  | O => s
  | S n' => calls cls n' (final (Step cls s))
  end.

(** The simulated time of the attached long-term memory, if any. *)
Definition ltm_time (s : Controller) : option nat := _timesteps <$> ltm s.

(** What injection and the draw cannot change: everything but the
    coderack and the random source. *)
Definition same_attributes (s s' : Controller) : Prop :=
  stream s' = stream s ∧ ltm s' = ltm s
  ∧ steps_taken s' = steps_taken s ∧ ui s' = ui s.

(** The codelet actions and the handler of an application leave the step
    counter alone. *)
Definition counter_untouched (cls : ControllerClass) : Prop :=
  (∀ c s, steps_taken (final (Run cls c s)) = steps_taken s)
  ∧ (∀ e s, steps_taken (final (HandleFargException cls e s)) = steps_taken s).

(** The codelet actions and the handler of an application neither detach
    the long-term memory nor write its time counter. *)
Definition clock_untouched (cls : ControllerClass) : Prop :=
  (∀ c s, ltm_time (final (Run cls c s)) = ltm_time s)
  ∧ (∀ e s, ltm_time (final (HandleFargException cls e s)) = ltm_time s).

(** Codelet actions raise nothing but recoverable signals. *)
Definition only_recoverable (cls : ControllerClass) : Prop :=
  ∀ c s e s', Run cls c s = Raised e s' → is_FargException e = true.

(** The handler always returns. *)
Definition handler_returns (cls : ControllerClass) : Prop :=
  ∀ e s, returns (HandleFargException cls e s) = true.

(** Neither the codelet actions nor the handler raise the coderack's own
    error. *)
Definition no_coderack_error (cls : ControllerClass) : Prop :=
  (∀ c s s', Run cls c s ≠ Raised EmptyCoderackError s')
  ∧ (∀ e s s', HandleFargException cls e s ≠ Raised EmptyCoderackError s').

End controller.

(** ** farg/core/main.py *)

Module main.
Import controller.

(** The flags [Main] reads. *)
Record Flags : Type := {
  run_mode_flag : string;
  stopping_condition : option string;
  persistent_directory : option string;
  ltm_directory : option string;
  stats_directory : option string;
  input_spec_file : option string;
  debug_config : option string;
  debug : option string
}.

Definition set_persistent_directory (d : string) (f : Flags) : Flags :=
  {| run_mode_flag := run_mode_flag f;
     stopping_condition := stopping_condition f;
     persistent_directory := Some d;
     ltm_directory := ltm_directory f;
     stats_directory := stats_directory f;
     input_spec_file := input_spec_file f;
     debug_config := debug_config f;
     debug := debug f |}.

Definition set_ltm_directory (d : string) (f : Flags) : Flags :=
  {| run_mode_flag := run_mode_flag f;
     stopping_condition := stopping_condition f;
     persistent_directory := persistent_directory f;
     ltm_directory := Some d;
     stats_directory := stats_directory f;
     input_spec_file := input_spec_file f;
     debug_config := debug_config f;
     debug := debug f |}.

Definition set_stats_directory (d : string) (f : Flags) : Flags :=
  {| run_mode_flag := run_mode_flag f;
     stopping_condition := stopping_condition f;
     persistent_directory := persistent_directory f;
     ltm_directory := ltm_directory f;
     stats_directory := Some d;
     input_spec_file := input_spec_file f;
     debug_config := debug_config f;
     debug := debug f |}.

(** The value of [self.stopping_condition_fn]: [None] at first, then the
    empty string or the function registered under a name. *)
Inductive StoppingFn : Type :=
| fn_None
| fn_empty_string
| fn_of (name : string).

(** The run-mode objects [CreateRunModeInstance] can build. *)
Inductive RunMode : Type :=
| RunModeGUI
| RunModeSingle (stopping_condition_fn : StoppingFn)
| RunModeBatch (input_spec : list string)
| RunModeSxS (input_spec : list string).

(** What [os.path] and [os.mkdir] see and change: the paths that exist,
    those among them that are regular files, the home directory, and the
    places where [os.mkdir] is refused. *)
Record FileSystem : Type := {
  existing : gset string;
  regular_files : gset string;
  home : string;
  unwritable : gset string
}.

(** A [Main] object under construction, with the file system and the
    standard output it writes to. *)
Record MainState : Type := {
  run_mode : option RunMode;
  stopping_condition_fn : StoppingFn;
  flags : Flags;
  log_level : option Z;
  fs : FileSystem;
  stdout : list string
}.

Definition set_run_mode (rm : option RunMode) (s : MainState) : MainState :=
  {| run_mode := rm; stopping_condition_fn := stopping_condition_fn s;
     flags := flags s; log_level := log_level s; fs := fs s;
     stdout := stdout s |}.

Definition set_stopping_condition_fn (fn : StoppingFn) (s : MainState)
    : MainState :=
  {| run_mode := run_mode s; stopping_condition_fn := fn;
     flags := flags s; log_level := log_level s; fs := fs s;
     stdout := stdout s |}.

Definition set_flags (f : Flags) (s : MainState) : MainState :=
  {| run_mode := run_mode s; stopping_condition_fn := stopping_condition_fn s;
     flags := f; log_level := log_level s; fs := fs s; stdout := stdout s |}.

Definition set_log_level (l : option Z) (s : MainState) : MainState :=
  {| run_mode := run_mode s; stopping_condition_fn := stopping_condition_fn s;
     flags := flags s; log_level := l; fs := fs s; stdout := stdout s |}.

Definition set_fs (f : FileSystem) (s : MainState) : MainState :=
  {| run_mode := run_mode s; stopping_condition_fn := stopping_condition_fn s;
     flags := flags s; log_level := log_level s; fs := f; stdout := stdout s |}.

Definition set_stdout (o : list string) (s : MainState) : MainState :=
  {| run_mode := run_mode s; stopping_condition_fn := stopping_condition_fn s;
     flags := flags s; log_level := log_level s; fs := fs s; stdout := o |}.

(** The class attributes a subclass of [Main] sets, the names its
    stopping-conditions class knows, and the hook [ProcessCustomFlags]. *)
Record MainClass : Type := {
  application_name : option string;
  StoppingConditionsList : list string;
  has_input_spec_reader : bool;
  ProcessCustomFlags : M MainState unit
}.

(** The calls into code that is not part of these sources:
    [logging.config.fileConfig] (does it accept the file?), the lookup
    [getattr(logging, name.upper(), None)] (is it an [int], and which?),
    the input reader (building it and reading the whole file either
    yields the input specification or raises), and the constructors of
    the run-mode classes (which may raise; [None] says the constructor
    returned). *)
Record Env : Type := {
  fileConfig_ok : string -> bool;
  numeric_level : string -> option Z;
  ReadFile : string -> Exn + list string;
  run_mode_init : RunMode -> option Exn
}.

Definition print (line : string) : M MainState unit :=
  modify (fun s => set_stdout (stdout s ++ [line]) s).

Definition sys_exit {A} (code : Z) : M MainState A := raise (SystemExit code).

Definition path_exists (p : string) (s : MainState) : bool :=
  bool_decide (p ∈ existing (fs s)).

Definition path_isfile (p : string) (s : MainState) : bool :=
  bool_decide (p ∈ regular_files (fs s)).

(** [os.path.join] on two components. *)
Definition path_join (a b : string) : string :=
  if String.prefix "/" b then b
  else if String.eqb a "" then b
  else if String.eqb (String.substring (String.length a - 1) 1 a) "/"
       then a +:+ b
       else a +:+ "/" +:+ b.

(** [os.mkdir]: refused where the path exists already or the place is
    not writable. *)
Definition mkdir (p : string) : M MainState unit :=
  fun s =>
    if bool_decide (p ∈ existing (fs s)) || bool_decide (p ∈ unwritable (fs s))
    then Raised (OtherException "OSError") s
    else Returned tt
           (set_fs {| existing := {[ p ]} ∪ existing (fs s);
                      regular_files := regular_files (fs s);
                      home := home (fs s);
                      unwritable := unwritable (fs s) |} s).

Definition the (o : option string) : string := default "" o.

Definition VerifyPersistentDirectoryPath (cls : MainClass)
    : M MainState unit :=
  (s <~ get ;;
   directory <~
     (if negb (truthy (persistent_directory (flags s))) then
        let homedir := home (fs s) in
        (if negb (path_exists homedir s)
         then print "Could not locate home directory for storing LTM files.You could explicitly specify an existing directory to use by usingthe flag --ltm_directory. Quitting." ;;;
              sys_exit 1
         else ret tt) ;;;
        let pyseqsee_home := path_join homedir ".pyseqsee" in
        (if negb (path_exists pyseqsee_home s)
         then print ("Creating directory for storing pyseqsee files: "
                       +:+ pyseqsee_home) ;;;
              mkdir pyseqsee_home
         else ret tt) ;;;
        ret (path_join pyseqsee_home (the (application_name cls)))
      else ret (the (persistent_directory (flags s)))) ;;
   s' <~ get ;;
   (if negb (path_exists directory s')
    then print ("Creating directory for storing persistent files for the "
                  +:+ the (application_name cls) +:+ " app: " +:+ directory) ;;;
         mkdir directory
    else ret tt) ;;;
   modify (fun s => set_flags (set_persistent_directory directory (flags s)) s))%py.

Definition VerifyLTMPath (cls : MainClass) : M MainState unit :=
  (s <~ get ;;
   if truthy (ltm_directory (flags s)) then
     (if negb (path_exists (the (ltm_directory (flags s))) s)
      then print ("LTM directory '" +:+ the (ltm_directory (flags s))
                    +:+ "' does not exist.") ;;;
           sys_exit 1
      else ret tt)
   else
     VerifyPersistentDirectoryPath cls ;;;
     s1 <~ get ;;
     let d := path_join (the (persistent_directory (flags s1))) "ltm" in
     modify (fun s => set_flags (set_ltm_directory d (flags s)) s) ;;;
     s2 <~ get ;;
     if negb (path_exists d s2)
     then print ("Creating directory for storing ltms: " +:+ d) ;;; mkdir d
     else ret tt)%py.

Definition VerifyStatsPath (cls : MainClass) : M MainState unit :=
  (s <~ get ;;
   if truthy (stats_directory (flags s)) then
     (if negb (path_exists (the (stats_directory (flags s))) s)
      then (* the source puts the path between quotation marks *)
           print ("Stats directory " +:+ the (stats_directory (flags s))
                    +:+ " does not exist.") ;;;
           sys_exit 1
      else ret tt)
   else
     VerifyPersistentDirectoryPath cls ;;;
     s1 <~ get ;;
     let d := path_join (the (persistent_directory (flags s1))) "stats" in
     modify (fun s => set_flags (set_stats_directory d (flags s)) s) ;;;
     s2 <~ get ;;
     if negb (path_exists d s2)
     then print ("Creating directory for storing stats: " +:+ d) ;;; mkdir d
     else ret tt)%py.

Definition name_in (name : string) (names : list string) : bool :=
  existsb (String.eqb name) names.

Definition VerifyStoppingConditionSanity (cls : MainClass)
    : M MainState unit :=
  (s <~ get ;;
   let run_mode_name := run_mode_flag (flags s) in
   let stopping_condition := stopping_condition (flags s) in
   if String.eqb run_mode_name "gui" then
     (if truthy stopping_condition
      then print "Stopping condition does not make sense with GUI." ;;;
           sys_exit 1
      else ret tt)
   else
     if truthy stopping_condition
        && negb (String.eqb (the stopping_condition) "None")
     then
       let stopping_conditions_list := StoppingConditionsList cls in
       if negb (name_in (the stopping_condition) stopping_conditions_list)
       then print ("Unknown stopping condition " +:+ the stopping_condition
                     +:+ ". Use one of "
                     +:+ String.concat ", " stopping_conditions_list) ;;;
            sys_exit 1
       else modify (set_stopping_condition_fn (fn_of (the stopping_condition)))
     else modify (set_stopping_condition_fn fn_empty_string))%py.

(** A call of a run-mode class: the object described by [rm], unless
    the constructor raises. *)
Definition construct_run_mode (env : Env) (rm : RunMode)
    : M MainState RunMode :=
  match run_mode_init env rm with
  | None => ret rm
  | Some e => raise e
  end.

(** [list(input_reader.ReadFile(file))]. *)
Definition read_input_spec (env : Env) (file : string)
    : M MainState (list string) :=
  match ReadFile env file with
  | inr input_spec => ret input_spec
  | inl e => raise e
  end.

Definition CreateRunModeInstance (cls : MainClass) (env : Env)
    : M MainState RunMode :=
  (s <~ get ;;
   let run_mode_name := run_mode_flag (flags s) in
   if String.eqb run_mode_name "gui" then construct_run_mode env RunModeGUI
   else if String.eqb run_mode_name "single"
   then construct_run_mode env (RunModeSingle (stopping_condition_fn s))
   else
     (if negb (truthy (input_spec_file (flags s)))
      then print ("Runmode --run_mode=" +:+ run_mode_name
                    +:+ " requires --input_spec_file to be specified") ;;;
           sys_exit 1
      else ret tt) ;;;
     (if has_input_spec_reader cls then ret tt
      else raise (OtherException "TypeError")) ;;;
     input_spec <~ read_input_spec env (the (input_spec_file (flags s))) ;;
     print (String.concat ", " input_spec) ;;;
     if String.eqb run_mode_name "batch"
     then construct_run_mode env (RunModeBatch input_spec)
     else if String.eqb run_mode_name "sxs"
     then construct_run_mode env (RunModeSxS input_spec)
     else print ("Unrecognized run_mode " +:+ run_mode_name) ;;; sys_exit 1)%py.

Definition ProcessFlags (cls : MainClass) (env : Env) : M MainState unit :=
  (s <~ get ;;
   (if truthy (debug_config (flags s))
    then if fileConfig_ok env (the (debug_config (flags s))) then ret tt
         else raise (OtherException "logging.config")
    else ret tt) ;;;
   (if truthy (debug (flags s))
    then match numeric_level env (the (debug (flags s))) with
         | None => print ("Invalid log level: " +:+ the (debug (flags s))) ;;;
                   sys_exit 1
         | Some level => modify (set_log_level (Some level))
         end
    else ret tt) ;;;
   ProcessCustomFlags cls ;;;
   s1 <~ get ;;
   (if truthy (input_spec_file (flags s1))
    then (if negb (path_exists (the (input_spec_file (flags s1))) s1)
          then print ("Input specification file '"
                        +:+ the (input_spec_file (flags s1))
                        +:+ "' does not exist. Bailing out.") ;;;
               sys_exit 1
          else ret tt) ;;;
         (if negb (path_isfile (the (input_spec_file (flags s1))) s1)
          then print ("Input specification '"
                        +:+ the (input_spec_file (flags s1))
                        +:+ "' is not a file. Bailing out.") ;;;
               sys_exit 1
          else ret tt)
    else ret tt) ;;;
   VerifyStoppingConditionSanity cls ;;;
   VerifyPersistentDirectoryPath cls ;;;
   VerifyLTMPath cls ;;;
   VerifyStatsPath cls ;;;
   rm <~ CreateRunModeInstance cls env ;;
   modify (set_run_mode (Some rm)))%py.

(** A [Main] object on which [__init__] has not yet run, together with
    the file system and the output written so far. *)
Definition fresh (unprocessed_flags : Flags) (fs0 : FileSystem)
    (out0 : list string) : MainState :=
  {| run_mode := None; stopping_condition_fn := fn_None;
     flags := unprocessed_flags; log_level := None;
     fs := fs0; stdout := out0 |}.

Definition __init__ (cls : MainClass) (env : Env) (unprocessed_flags : Flags)
    : M MainState unit :=
  ((if negb (truthy (application_name cls))
    then print "application_name not set. The subclass of farg.core.Main that you calledshould have over-ridden this. See farg.apps.seqsee.run_seqsee.py for anexample" ;;;
         sys_exit 1
    else ret tt) ;;;
   modify (set_run_mode None) ;;;
   modify (set_stopping_condition_fn fn_None) ;;;
   modify (set_flags unprocessed_flags) ;;;
   ProcessFlags cls env)%py.

(** [Main.Run]: hand over to the run mode, whose own [Run] (missing from
    the sources) is what asks the controller for steps. *)
Definition Run (run_mode_Run : RunMode -> M MainState unit)
    : M MainState unit :=
  fun s =>
    match run_mode s with
    | Some rm => run_mode_Run rm s
    | None => Raised (OtherException "AttributeError") s
    end.

(** *** Vocabulary for the statements about start-up *)

(** The stopping-condition flag names a condition the application does
    not know: it is set, it is not the word None, and it is not in the
    list of the stopping-conditions class. *)
Definition unknown_stopping_condition (cls : MainClass) (f : Flags) : Prop :=
  truthy (stopping_condition f) = true
  ∧ String.eqb (the (stopping_condition f)) "None" = false
  ∧ name_in (the (stopping_condition f)) (StoppingConditionsList cls) = false.

(** The application's own flag processing creates no run mode and leaves
    the stopping-condition flag as it was given. *)
Definition custom_flags_keep (cls : MainClass) : Prop :=
  ∀ s, run_mode (final (ProcessCustomFlags cls s)) = run_mode s
       ∧ stopping_condition (flags (final (ProcessCustomFlags cls s)))
         = stopping_condition (flags s).

(** [c] keeps the property [P] of the state, however it ends. *)
Definition keeps (P : MainState → Prop) {A} (c : M MainState A) : Prop :=
  ∀ s, P s → P (final (c s)).

(** [c] keeps [P] and never returns. *)
Definition stops (P : MainState → Prop) {A} (c : M MainState A) : Prop :=
  ∀ s, P s → returns (c s) = false ∧ P (final (c s)).

(** No run mode exists yet, and the stopping-condition flag reads
    [name]. *)
Definition pending (name : option string) (s : MainState) : Prop :=
  run_mode s = None ∧ stopping_condition (flags s) = name.

End main.

(** ** Sample applications

    Small concrete instances of the pluggable parts, on which the
    statements of Part II are exercised. *)

Module samples.
Import util codelet coderack controller.

(** A tape that cycles through 0, 1/4, 1/2, 3/4. *)
Definition quarters : Rng :=
  {| tape := fun n => (Z.of_nat (n mod 4) # 4)%Q; cursor := 0 |}.

(** Two families: "retry" gives up with a recoverable signal, "halt"
    announces the end of the run. *)
Definition seeker_Run (c : Codelet) : M Controller unit :=
  if String.eqb (family c) "halt"
  then raise (OtherException "AnswerFound")
  else raise (FargException "no luck").

Definition seeker : ControllerClass :=
  {| routine_codelets_to_add := [("retry", 1%Q, (1 # 2)%Q); ("halt", 2%Q, (1 # 10)%Q)];
     ltm_name := Some "memory";
     max_capacity := 3;
     eviction_weight := Qinv;
     Run := seeker_Run;
     HandleFargException := record_and_continue |}.

(** Every family gives up with a recoverable signal: no run ever halts. *)
Definition plodder_Run (c : Codelet) : M Controller unit :=
  raise (FargException ("no luck in " +:+ family c)).

Definition plodder : ControllerClass :=
  {| routine_codelets_to_add := [("retry", 1%Q, 0%Q)];
     ltm_name := Some "memory";
     max_capacity := 3;
     eviction_weight := Qinv;
     Run := plodder_Run;
     HandleFargException := record_and_continue |}.

(** No routine codelets at all. *)
Definition idle : ControllerClass :=
  {| routine_codelets_to_add := [];
     ltm_name := None;
     max_capacity := 3;
     eviction_weight := Qinv;
     Run := seeker_Run;
     HandleFargException := record_and_continue |}.

Definition blank_ltm (name : string) : LTM := {| _timesteps := 0; nodes := [] |}.

Definition seeker0 : Controller :=
  final (controller.__init__ seeker blank_ltm quarters []).

(** A seeker whose coderack holds one urgent "retry" codelet: with the
    tape [quarters] it halts on its second step. *)
Definition seeker1 : Controller :=
  set_coderack
    {| _codelets := [{| family := "retry"; urgency := 5; args := [] |}];
       _max_capacity := 3 |}
    seeker0.

(** A seeker whose coderack has been emptied. *)
Definition seeker_drained : Controller :=
  set_coderack {| _codelets := []; _max_capacity := 3 |} seeker0.

Definition halt_codelet : Codelet :=
  {| family := "halt"; urgency := 2; args := [] |}.

(** The seeker at the moment its first step has drawn a codelet. *)
Definition seeker0_drawn : Controller :=
  final (coderack_GetCodelet (prepare seeker seeker0)).

(** [seeker1] after its first step, and at the moment its second step
    has drawn a codelet. *)
Definition seeker1_stepped : Controller := final (Step seeker seeker1).

Definition seeker1_drawn : Controller :=
  final (coderack_GetCodelet (prepare seeker seeker1_stepped)).

Definition plodder0 : Controller :=
  final (controller.__init__ plodder blank_ltm quarters []).

Definition idle0 : Controller :=
  final (controller.__init__ idle blank_ltm quarters []).

(** *** Start-up samples *)

Definition home_only : main.FileSystem :=
  {| main.existing := {[ "/home/u" ]}; main.regular_files := ∅;
     main.home := "/home/u"; main.unwritable := ∅ |}.

Definition plain_env : main.Env :=
  {| main.fileConfig_ok := fun _ => true;
     main.numeric_level := fun _ => Some 10%Z;
     main.ReadFile := fun _ => inr [];
     main.run_mode_init := fun _ => None |}.

Definition single_run (condition : option string) : main.Flags :=
  {| main.run_mode_flag := "single";
     main.stopping_condition := condition;
     main.persistent_directory := None;
     main.ltm_directory := None;
     main.stats_directory := None;
     main.input_spec_file := None;
     main.debug_config := None;
     main.debug := None |}.

(** An application that forgot to name itself, and one that did. *)
Definition nameless : main.MainClass :=
  {| main.application_name := None;
     main.StoppingConditionsList := ["AnswerFound"];
     main.has_input_spec_reader := false;
     main.ProcessCustomFlags := ret tt |}.

Definition seqsee : main.MainClass :=
  {| main.application_name := Some "seqsee";
     main.StoppingConditionsList := ["AnswerFound"];
     main.has_input_spec_reader := false;
     main.ProcessCustomFlags := ret tt |}.

End samples.

(** ** Further vocabulary *)

Module controller_terms.
Import util codelet coderack controller.

(** The random source is only ever read forwards: same tape, a cursor
    that has not moved back. *)
Definition rng_advanced (s s' : Controller) : Prop :=
  tape (rng s') = tape (rng s) ∧ cursor (rng s) ≤ cursor (rng s').

(** The random source after [n] draws. *)
Definition drawn (n : nat) (r : Rng) : Rng :=
  {| tape := tape r; cursor := cursor r + n |}.

(** Every toss for one of the triples comes up false on the tape of
    [r]. *)
Definition tosses_fail (triples : list (Family * Q * Q)) (r : Rng) : Prop :=
  ∀ t n, t ∈ triples → Qle_bool (tape r n) t.2 = false.

(** [self.HandleFargException(e)] on a class that defines no such
    method, as [controller.py] does not: the lookup of the attribute
    raises [AttributeError] before anything is called, and leaves the
    controller as it is. *)
Definition undefined_HandleFargException (e : Exn) : M Controller unit :=
  raise (OtherException "AttributeError").

(** The class [Controller] as [controller.py] writes it: the class
    attributes with the values of lines 29 and 31, and no handler.  The
    coderack class (its capacity and eviction curve) and the actions of
    the codelets come from the modules it imports. *)
Definition Controller_as_written (capacity : nat) (curve : Q → Q)
    (action : Codelet → M Controller unit) : ControllerClass :=
  {| routine_codelets_to_add := [];
     ltm_name := None;
     max_capacity := capacity;
     eviction_weight := curve;
     Run := action;
     HandleFargException := undefined_HandleFargException |}.

End controller_terms.

Module main_terms.
Import controller main.

(** Nothing is ever removed from the file system, and only directories
    are added to it. *)
Definition fs_grows (s s' : MainState) : Prop :=
  existing (fs s) ⊆ existing (fs s')
  ∧ regular_files (fs s') = regular_files (fs s)
  ∧ home (fs s') = home (fs s)
  ∧ unwritable (fs s') = unwritable (fs s).

(** The attributes of the [Main] object proper are the same in both
    states. *)
Definition same_object (s s' : MainState) : Prop :=
  run_mode s' = run_mode s
  ∧ stopping_condition_fn s' = stopping_condition_fn s
  ∧ log_level s' = log_level s.

(** The flags agree except, possibly, for the three directories. *)
Definition same_request (f f' : Flags) : Prop :=
  run_mode_flag f' = run_mode_flag f
  ∧ stopping_condition f' = stopping_condition f
  ∧ input_spec_file f' = input_spec_file f
  ∧ debug_config f' = debug_config f
  ∧ debug f' = debug f.

(** The directory the flag [d] names is there. *)
Definition directory_ready (d : option string) (s : MainState) : Prop :=
  ∃ p, d = Some p ∧ p ∈ existing (fs s).

(** [rm] describes the run mode the flag [run_mode] asks for. *)
Definition requested (env : Env) (s : MainState) (rm : RunMode) : Prop :=
  let name := run_mode_flag (flags s) in
  let spec := ReadFile env (the (input_spec_file (flags s))) in
  (name = "gui" ∧ rm = RunModeGUI)
  ∨ (name = "single" ∧ rm = RunModeSingle (stopping_condition_fn s))
  ∨ (name = "batch" ∧ (∃ l, spec = inr l ∧ rm = RunModeBatch l)
     ∧ truthy (input_spec_file (flags s)) = true)
  ∨ (name = "sxs" ∧ (∃ l, spec = inr l ∧ rm = RunModeSxS l)
     ∧ truthy (input_spec_file (flags s)) = true).

(** The run mode is the one the flag [run_mode] asks for, and its
    constructor has returned. *)
Definition built_for (env : Env) (s : MainState) (rm : RunMode) : Prop :=
  requested env s rm ∧ run_mode_init env rm = None.

(** Why [CreateRunModeInstance], started in [s], raised [e]: the
    constructor of the requested run mode raised it; or the mode is
    neither GUI nor single and no input specification is named (exit
    status 1), the class has no input reader ([TypeError]), the reader
    raised it, or, the file read, the mode is not batch or sxs either
    (exit status 1). *)
Definition creation_failed (cls : MainClass) (env : Env) (s : MainState)
    (e : Exn) : Prop :=
  let name := run_mode_flag (flags s) in
  let file := input_spec_file (flags s) in
  (∃ rm, requested env s rm ∧ run_mode_init env rm = Some e)
  ∨ (name ≠ "gui" ∧ name ≠ "single"
     ∧ ((e = SystemExit 1 ∧ truthy file = false)
        ∨ (e = OtherException "TypeError" ∧ truthy file = true
           ∧ has_input_spec_reader cls = false)
        ∨ (truthy file = true ∧ has_input_spec_reader cls = true
           ∧ ReadFile env (the file) = inl e)
        ∨ (e = SystemExit 1 ∧ truthy file = true
           ∧ has_input_spec_reader cls = true
           ∧ (∃ l, ReadFile env (the file) = inr l)
           ∧ name ∉ ["batch"; "sxs"]))).

(** The directory [VerifyPersistentDirectoryPath] settles on. *)
Definition persistent_choice (cls : MainClass) (s : MainState) : string :=
  if truthy (persistent_directory (flags s))
  then the (persistent_directory (flags s))
  else path_join (path_join (home (fs s)) ".pyseqsee")
                 (the (application_name cls)).

(** A partial-correctness triple: from a state with [P], if [c] returns
    [a] in state [s'], then [Q a s']. *)
Definition post {A} (P : MainState → Prop) (c : M MainState A)
    (Q : A → MainState → Prop) : Prop :=
  ∀ s a s', P s → c s = Returned a s' → Q a s'.

(** What a computation establishes when started in [s]: [Q] of its
    result and final state if it returns, [E] of its exception and
    final state if it raises. *)
Definition wp {A} (c : M MainState A) (Q : A → MainState → Prop)
    (E : Exn → MainState → Prop) (s : MainState) : Prop :=
  match c s with
  | Returned a s' => Q a s'
  | Raised e s' => E e s'
  end.

(** What [VerifyPersistentDirectoryPath], started in [s], has
    established when it returns in [s']: the flag names the chosen
    directory, which is there; nothing else of the request or of the
    object has changed and the file system has only grown. *)
Definition persistent_ok (cls : MainClass) (s s' : MainState) : Prop :=
  persistent_directory (flags s') = Some (persistent_choice cls s)
  ∧ persistent_choice cls s ∈ existing (fs s')
  ∧ fs_grows s s' ∧ same_object s s'
  ∧ same_request (flags s) (flags s')
  ∧ ltm_directory (flags s') = ltm_directory (flags s)
  ∧ stats_directory (flags s') = stats_directory (flags s).

(** ... and when it raises [e] in [s']: the flags are untouched, and
    either the home directory is missing (exit status 1, nothing
    created) or [os.mkdir] was refused. *)
Definition persistent_failed (s : MainState) (e : Exn) (s' : MainState)
    : Prop :=
  flags s' = flags s ∧ fs_grows s s' ∧ same_object s s'
  ∧ ((e = SystemExit 1 ∧ fs s' = fs s
      ∧ truthy (persistent_directory (flags s)) = false
      ∧ home (fs s) ∉ existing (fs s))
     ∨ e = OtherException "OSError").

(** What [VerifyLTMPath] and [VerifyStatsPath] establish when they
    return ([which] is the flag they look after, [other] the flag of
    the other one, [leaf] the name of the subdirectory): a directory
    given by flag is there and nothing at all has changed; otherwise
    the flag names the subdirectory of the persistent directory, and
    both are there. *)
Definition subdir_ok (cls : MainClass) (which other : Flags → option string)
    (leaf : string) (s s' : MainState) : Prop :=
  if truthy (which (flags s))
  then s' = s ∧ the (which (flags s)) ∈ existing (fs s)
  else which (flags s') = Some (path_join (persistent_choice cls s) leaf)
       ∧ path_join (persistent_choice cls s) leaf ∈ existing (fs s')
       ∧ persistent_directory (flags s') = Some (persistent_choice cls s)
       ∧ persistent_choice cls s ∈ existing (fs s')
       ∧ other (flags s') = other (flags s)
       ∧ fs_grows s s' ∧ same_object s s'
       ∧ same_request (flags s) (flags s').

(** ... and when they raise: a directory given by flag that is missing
    is never created (exit status 1, flags and file system untouched);
    otherwise the failure is that of the persistent directory or a
    refused [os.mkdir]. *)
Definition subdir_failed (which : Flags → option string)
    (s : MainState) (e : Exn) (s' : MainState) : Prop :=
  fs_grows s s' ∧ same_object s s' ∧ same_request (flags s) (flags s')
  ∧ if truthy (which (flags s))
    then e = SystemExit 1 ∧ fs s' = fs s ∧ flags s' = flags s
         ∧ the (which (flags s)) ∉ existing (fs s)
    else e = SystemExit 1 ∨ e = OtherException "OSError".

(** The value [VerifyStoppingConditionSanity] installs outside the GUI
    mode. *)
Definition installed_fn (f : Flags) : StoppingFn :=
  if truthy (stopping_condition f)
     && negb (String.eqb (the (stopping_condition f)) "None")
  then fn_of (the (stopping_condition f))
  else fn_empty_string.

(** The stopping condition of the flags has been accepted and, outside
    the GUI mode, installed. *)
Definition condition_settled (cls : MainClass) (s : MainState) : Prop :=
  if String.eqb (run_mode_flag (flags s)) "gui"
  then truthy (stopping_condition (flags s)) = false
  else stopping_condition_fn s = installed_fn (flags s)
       ∧ ¬ unknown_stopping_condition cls (flags s).

(** Everything a run needs is in place: the run mode the flags ask
    for exists, the stopping condition is settled, and the three
    directories of the flags are there. *)
Definition ready_to_run (cls : MainClass) (env : Env) (s' : MainState)
    : Prop :=
  ∃ rm, run_mode s' = Some rm
    ∧ built_for env s' rm
    ∧ condition_settled cls s'
    ∧ directory_ready (persistent_directory (flags s')) s'
    ∧ directory_ready (ltm_directory (flags s')) s'
    ∧ directory_ready (stats_directory (flags s')) s'.

(** [c] leaves [run_mode] alone, however it ends. *)
Definition leaves_run_mode {A} (c : M MainState A) : Prop :=
  ∀ s, run_mode (final (c s)) = run_mode s.

(** [c] leaves [run_mode] alone whenever it raises. *)
Definition raises_before_run_mode {A} (c : M MainState A) : Prop :=
  ∀ s e s', c s = Raised e s' → run_mode s' = run_mode s.

(** The input specification named by the flags cannot be used: there is
    no such path, or it is not a regular file. *)
Definition input_spec_unusable (s : MainState) : Prop :=
  truthy (input_spec_file (flags s)) = true
  ∧ (the (input_spec_file (flags s)) ∉ existing (fs s)
     ∨ the (input_spec_file (flags s)) ∉ regular_files (fs s)).

(** The base class's [ProcessCustomFlags], whose body is [pass]. *)
Definition plain_custom_flags (cls : MainClass) : Prop :=
  ∀ s, ProcessCustomFlags cls s = Returned tt s.

End main_terms.

(** ** Further samples *)

Module samples_more.
Import util codelet coderack controller samples controller_terms.

(** The controller class as written, with codelets that all give up
    with a recoverable signal; a controller of it to which one codelet
    has been added; and that controller at the moment its first step
    has drawn the codelet. *)
Definition bare : ControllerClass := Controller_as_written 3 Qinv plodder_Run.

Definition retry_codelet : Codelet :=
  {| family := "retry"; urgency := 1; args := [] |}.

Definition bare0 : Controller :=
  final (controller.__init__ bare blank_ltm quarters []).

Definition bare1 : Controller :=
  final (AddCodelet bare "retry" 1 [] bare0).

Definition bare1_drawn : Controller :=
  final (coderack_GetCodelet (prepare bare bare1)).

(** A tape on which every draw is one half, and an application whose
    only routine codelet is wanted one time in four. *)
Definition halves : Rng := {| tape := λ _, (1 # 2)%Q; cursor := 0 |}.

Definition dozer : ControllerClass :=
  {| routine_codelets_to_add := [("retry", 1%Q, (1 # 4)%Q)];
     ltm_name := Some "";
     max_capacity := 3;
     eviction_weight := Qinv;
     Run := plodder_Run;
     HandleFargException := record_and_continue |}.

Definition dozer0 : Controller :=
  final (controller.__init__ dozer blank_ltm halves []).

(** The start of a single run that asks for a registered stopping
    condition, in a file system that holds the home directory only. *)
Definition seqsee_start : main.MainState :=
  main.fresh (single_run (Some "AnswerFound")) home_only [].

(** A batch run whose input specification does not exist. *)
Definition batch_run : main.Flags :=
  {| main.run_mode_flag := "batch";
     main.stopping_condition := None;
     main.persistent_directory := None;
     main.ltm_directory := None;
     main.stats_directory := None;
     main.input_spec_file := Some "/nowhere/input.txt";
     main.debug_config := None;
     main.debug := None |}.

(** A single run that asks for a log level the logging module does not
    know. *)
Definition chatty_run : main.Flags :=
  {| main.run_mode_flag := "single";
     main.stopping_condition := None;
     main.persistent_directory := None;
     main.ltm_directory := None;
     main.stats_directory := None;
     main.input_spec_file := None;
     main.debug_config := None;
     main.debug := Some "loud" |}.

Definition strict_env : main.Env :=
  {| main.fileConfig_ok := λ _, true;
     main.numeric_level := λ _, None;
     main.ReadFile := λ _, inr [];
     main.run_mode_init := λ _, None |}.

End samples_more.

(* ===================================================================== *)
(** * Part II: theorems                                                   *)
(* ===================================================================== *)

(** ** The coderack *)

Module coderack_facts.
Import util codelet coderack.

Lemma pick_cons (w : Codelet -> Q) (x : Q) (c d : Codelet) (rest : list Codelet) :
  pick w x (c :: d :: rest) =
    if Qlt_le_dec x (w c) then Some (c, d :: rest)
    else match pick w (x - w c)%Q (d :: rest) with
         | Some (e, rest') => Some (e, c :: rest')
         | None => Some (c, d :: rest)
         end.
Proof. reflexivity. Qed.

Lemma pick_some (w : Codelet -> Q) (l : list Codelet) :
  ∀ x, l ≠ [] → is_Some (pick w x l).
Proof.
  induction l as [|c l IH]; intros x Hne; [done|].
  destruct l as [|d rest]; [exists (c, []); reflexivity|].
  rewrite pick_cons. destruct (Qlt_le_dec x (w c)); [eexists; reflexivity|].
  destruct (pick w (x - w c)%Q (d :: rest)) as [[? ?]|]; eexists; reflexivity.
Qed.

Lemma pick_perm (w : Codelet -> Q) (l : list Codelet) :
  ∀ x c rest, pick w x l = Some (c, rest) → l ≡ₚ c :: rest.
Proof.
  induction l as [|a l IH]; intros x c rest Hp; [done|].
  destruct l as [|d tl].
  - cbn in Hp. by simplify_eq.
  - rewrite pick_cons in Hp. destruct (Qlt_le_dec x (w a)); [by simplify_eq |].
    destruct (pick w (x - w a)%Q (d :: tl)) as [[c' rest']|] eqn:E;
      simplify_eq; [|done].
    rewrite (IH _ _ _ E). apply Permutation_swap.
Qed.

Lemma IsEmpty_false_iff (rack : Coderack) :
  IsEmpty rack = false ↔ _codelets rack ≠ [].
Proof. unfold IsEmpty. destruct (_codelets rack); naive_solver. Qed.

Lemma IsEmpty_true_nil (rack : Coderack) :
  IsEmpty rack = true → _codelets rack = [].
Proof. unfold IsEmpty. by destruct (_codelets rack). Qed.

Lemma GetCodelet_nonempty (rack : Coderack) (r : Rng) :
  IsEmpty rack = false →
  ∃ c rack' r', GetCodelet rack r = inr (c, rack', r')
    ∧ _codelets rack ≡ₚ c :: _codelets rack'
    ∧ _max_capacity rack' = _max_capacity rack.
Proof.
  intros Hne. unfold GetCodelet, weighted_draw. rewrite Hne. cbn.
  apply IsEmpty_false_iff in Hne.
  destruct (pick_some urgency (_codelets rack)
              (tape r (cursor r) * total_weight urgency (_codelets rack))%Q Hne)
    as [[c rest] Hp].
  rewrite Hp. eexists _, _, _. split; [done|]. split; [|done].
  cbn. by eapply pick_perm.
Qed.

Lemma GetCodelet_empty (rack : Coderack) (r : Rng) :
  IsEmpty rack = true → GetCodelet rack r = inl EmptyCoderackError.
Proof. intros He. unfold GetCodelet. by rewrite He. Qed.

Lemma AddCodelet_member (ew : Q -> Q) (c : Codelet) (rack : Coderack) (r : Rng) :
  ∃ rest, _codelets (AddCodelet ew c rack r).1 = c :: rest.
Proof.
  unfold AddCodelet. case_decide; [|by eexists].
  destruct (evict_one ew rack r) as [rack' r']. by eexists.
Qed.

Lemma AddCodelet_nonempty (ew : Q -> Q) (c : Codelet) (rack : Coderack) (r : Rng) :
  IsEmpty (AddCodelet ew c rack r).1 = false.
Proof.
  destruct (AddCodelet_member ew c rack r) as [rest Hr].
  unfold IsEmpty. by rewrite Hr.
Qed.

Lemma AddCodelet_room (ew : Q -> Q) (c : Codelet) (rack : Coderack) (r : Rng) :
  (length (_codelets rack) < _max_capacity rack)%nat →
  AddCodelet ew c rack r = (insert_codelet c rack, r).
Proof. intros Hlt. unfold AddCodelet. case_decide; [lia | done]. Qed.

Lemma AddCodelet_capacity (ew : Q -> Q) (c : Codelet) (rack : Coderack) (r : Rng) :
  _max_capacity (AddCodelet ew c rack r).1 = _max_capacity rack.
Proof.
  unfold AddCodelet, evict_one, weighted_draw.
  case_decide; [|done]. destruct (IsEmpty rack); [done|]. cbn.
  by destruct (pick _ _ _) as [[? ?]|].
Qed.

End coderack_facts.

(** ** The controller: auxiliary facts *)

Module controller_facts.
Import util codelet coderack controller coderack_facts.

Section WithClass.
Context (cls : ControllerClass).

Lemma same_attributes_refl s : same_attributes s s.
Proof. by repeat split. Qed.

Lemma same_attributes_trans s1 s2 s3 :
  same_attributes s1 s2 → same_attributes s2 s3 → same_attributes s1 s3.
Proof. unfold same_attributes. intros (?&?&?&?) (?&?&?&?). repeat split; congruence. Qed.

Lemma coderack_AddCodelet_returns c s :
  ∃ s', coderack_AddCodelet cls c s = Returned tt s'
    ∧ same_attributes s s'
    ∧ IsEmpty (coderack s') = false.
Proof.
  unfold coderack_AddCodelet.
  pose proof (AddCodelet_nonempty (eviction_weight cls) c (coderack s) (rng s)) as Hne.
  destruct (coderack.AddCodelet _ c (coderack s) (rng s)) as [rack' r'].
  eexists. split; [done|]. split; [by repeat split | done].
Qed.

Lemma toss_returns p s :
  ∃ b s', toss p s = Returned b s' ∧ same_attributes s s'
    ∧ coderack s' = coderack s.
Proof.
  unfold toss. destruct (Toss p (rng s)) as [b r'].
  eexists _, _. split; [done|]. split; [by repeat split | done].
Qed.

Lemma add_routine_loop_forced triples :
  ∀ s, add_routine_loop cls true triples s
       = Returned tt (inject_all cls triples s).
Proof.
  induction triples as [|[[f u] p] rest IH]; intros s; [done|].
  cbn [add_routine_loop inject_all]. unfold bind, ret at 1.
  destruct (coderack_AddCodelet_returns (codelet_of (f, u, p)) s)
    as (s' & Hs' & _).
  unfold codelet_of in Hs'. cbn in Hs'. rewrite Hs'.
  rewrite IH. unfold codelet_of. cbn. by rewrite Hs'.
Qed.

Lemma add_routine_loop_returns force triples :
  ∀ s, ∃ s', add_routine_loop cls force triples s = Returned tt s'
    ∧ same_attributes s s'.
Proof.
  induction triples as [|[[f u] p] rest IH]; intros s.
  { exists s. split; [done | apply same_attributes_refl]. }
  cbn [add_routine_loop]. unfold bind.
  destruct force.
  - unfold ret at 1.
    destruct (coderack_AddCodelet_returns
                {| family := f; urgency := u; args := [] |} s)
      as (s1 & -> & Hs1 & _).
    destruct (IH s1) as (s2 & -> & Hs2).
    exists s2. split; [done|]. by eapply same_attributes_trans.
  - destruct (toss_returns p s) as (b & s1 & -> & Hs1 & _).
    destruct b.
    + destruct (coderack_AddCodelet_returns
                  {| family := f; urgency := u; args := [] |} s1)
        as (s2 & -> & Hs2 & _).
      destruct (IH s2) as (s3 & -> & Hs3).
      exists s3. split; [done|].
      eapply same_attributes_trans; [|done].
      by eapply same_attributes_trans.
    + unfold ret at 1. destruct (IH s1) as (s2 & -> & Hs2).
      exists s2. split; [done|]. by eapply same_attributes_trans.
Qed.

Lemma inject_all_nonempty triples :
  ∀ s, triples ≠ [] → IsEmpty (coderack (inject_all cls triples s)) = false.
Proof.
  induction triples as [|t rest IH]; intros s Hne; [done|].
  cbn [inject_all].
  destruct (coderack_AddCodelet_returns (codelet_of t) s) as (s1 & -> & _ & Hs1).
  cbn [final]. destruct rest as [|t' rest']; [done|]. by apply IH.
Qed.

Lemma _AddRoutineCodelets_returns force s :
  ∃ s', _AddRoutineCodelets cls force s = Returned tt s'
    ∧ same_attributes s s'.
Proof.
  unfold _AddRoutineCodelets.
  destruct (routine_codelets_to_add cls) as [|t rest] eqn:E.
  { exists s. split; [done | apply same_attributes_refl]. }
  apply add_routine_loop_returns.
Qed.

Lemma _AddRoutineCodelets_empty_rack force s :
  IsEmpty (coderack s) = true →
  _AddRoutineCodelets cls force s
  = Returned tt (inject_all cls (routine_codelets_to_add cls) s).
Proof.
  intros He. unfold _AddRoutineCodelets. rewrite He.
  destruct (routine_codelets_to_add cls) as [|t rest] eqn:E; [done|].
  apply add_routine_loop_forced.
Qed.

Lemma prepare_spec s :
  _AddRoutineCodelets cls false (tick s) = Returned tt (prepare cls s)
  ∧ same_attributes (tick s) (prepare cls s).
Proof.
  unfold prepare.
  destruct (_AddRoutineCodelets_returns false (tick s)) as (s' & -> & Hs').
  done.
Qed.

(** [Step], statement by statement. *)
Lemma Step_unfold s :
  Step cls s =
    if IsEmpty (coderack (prepare cls s)) then Returned tt (prepare cls s)
    else match coderack_GetCodelet (prepare cls s) with
         | Returned c s3 => run_guarded cls c s3
         | Raised e s3 => Raised e s3
         end.
Proof.
  unfold Step, bind, modify, get.
  destruct (prepare_spec s) as [-> _].
  by destruct (IsEmpty (coderack (prepare cls s))).
Qed.

Lemma coderack_GetCodelet_nonempty s :
  IsEmpty (coderack s) = false →
  ∃ c s3, coderack_GetCodelet s = Returned c s3
    ∧ same_attributes s s3
    ∧ _codelets (coderack s) ≡ₚ c :: _codelets (coderack s3).
Proof.
  intros Hne. unfold coderack_GetCodelet.
  destruct (GetCodelet_nonempty (coderack s) (rng s) Hne)
    as (c & rack' & r' & -> & Hperm & _).
  eexists _, _. split; [done|]. split; [by repeat split | done].
Qed.

Lemma Step_draws s c s3 :
  draws cls s c s3 → Step cls s = run_guarded cls c s3.
Proof. intros [Hne Hd]. by rewrite Step_unfold, Hne, Hd. Qed.

Lemma Step_idle s :
  IsEmpty (coderack (prepare cls s)) = true →
  Step cls s = Returned tt (prepare cls s).
Proof. intros He. by rewrite Step_unfold, He. Qed.

Lemma draws_exists s :
  IsEmpty (coderack (prepare cls s)) = false →
  ∃ c s3, draws cls s c s3
    ∧ same_attributes (prepare cls s) s3
    ∧ _codelets (coderack (prepare cls s)) ≡ₚ c :: _codelets (coderack s3).
Proof.
  intros Hne.
  destruct (coderack_GetCodelet_nonempty _ Hne) as (c & s3 & Hd & Hs & Hp).
  by exists c, s3.
Qed.

Lemma tick_steps_taken s : steps_taken (tick s) = steps_taken s + 1.
Proof. unfold tick. cbn. by destruct (ltm s). Qed.

Lemma tick_ltm_time s l :
  ltm s = Some l → ltm_time (tick s) = Some (steps_taken s + 1).
Proof. intros Hl. unfold tick, ltm_time. cbn. by rewrite Hl. Qed.

Lemma tick_ltm_none s : ltm s = None → ltm (tick s) = None.
Proof. intros Hl. unfold tick. cbn. by rewrite Hl. Qed.

Lemma tick_coderack s : coderack (tick s) = coderack s.
Proof. unfold tick. cbn. by destruct (ltm s). Qed.


(** *** Counting steps *)

Lemma run_guarded_steps_taken c s :
  counter_untouched cls →
  steps_taken (final (run_guarded cls c s)) = steps_taken s.
Proof.
  intros [HR HH]. unfold run_guarded, try_except.
  pose proof (HR c s) as Hc.
  destruct (Run cls c s) as [[] s'|e s']; cbn in Hc; [done|].
  destruct (is_FargException e); [|done].
  by rewrite HH.
Qed.

Lemma run_guarded_ltm_time c s :
  clock_untouched cls →
  ltm_time (final (run_guarded cls c s)) = ltm_time s.
Proof.
  intros [HR HH]. unfold run_guarded, try_except.
  pose proof (HR c s) as Hc.
  destruct (Run cls c s) as [[] s'|e s']; cbn in Hc; [done|].
  destruct (is_FargException e); [|done].
  by rewrite HH.
Qed.

Lemma prepare_steps_taken s : steps_taken (prepare cls s) = steps_taken s + 1.
Proof.
  destruct (prepare_spec s) as [_ (_ & _ & -> & _)]. apply tick_steps_taken.
Qed.

Lemma prepare_ltm s : ltm (prepare cls s) = ltm (tick s).
Proof. by destruct (prepare_spec s) as [_ (_ & -> & _)]. Qed.

Lemma draws_steps_taken s c s3 :
  draws cls s c s3 → steps_taken s3 = steps_taken s + 1.
Proof.
  intros [Hne Hd].
  destruct (coderack_GetCodelet_nonempty _ Hne) as (c' & s3' & Hd' & Hs & _).
  rewrite Hd in Hd'. simplify_eq.
  destruct Hs as (_ & _ & -> & _). apply prepare_steps_taken.
Qed.

Lemma draws_ltm s c s3 : draws cls s c s3 → ltm s3 = ltm (tick s).
Proof.
  intros [Hne Hd].
  destruct (coderack_GetCodelet_nonempty _ Hne) as (c' & s3' & Hd' & Hs & _).
  rewrite Hd in Hd'. simplify_eq.
  destruct Hs as (_ & -> & _). apply prepare_ltm.
Qed.

Lemma Step_cases s :
  (IsEmpty (coderack (prepare cls s)) = true
   ∧ Step cls s = Returned tt (prepare cls s))
  ∨ (∃ c s3, draws cls s c s3
       ∧ _codelets (coderack (prepare cls s)) ≡ₚ c :: _codelets (coderack s3)
       ∧ Step cls s = run_guarded cls c s3).
Proof.
  destruct (IsEmpty (coderack (prepare cls s))) eqn:E.
  - left. split; [done | by apply Step_idle].
  - right. destruct (draws_exists s E) as (c & s3 & Hd & _ & Hp).
    exists c, s3. split; [done|]. split; [done | by apply Step_draws].
Qed.

Lemma Step_steps_taken s :
  counter_untouched cls →
  steps_taken (final (Step cls s)) = steps_taken s + 1.
Proof.
  intros Hc. destruct (Step_cases s) as [[_ ->]|(c & s3 & Hd & _ & ->)].
  - apply prepare_steps_taken.
  - rewrite run_guarded_steps_taken by done. by eapply draws_steps_taken.
Qed.

Lemma Step_ltm_time s l :
  clock_untouched cls → ltm s = Some l →
  ltm_time (final (Step cls s)) = Some (steps_taken s + 1).
Proof.
  intros Hc Hl. rewrite <- (tick_ltm_time s l Hl).
  destruct (Step_cases s) as [[_ ->]|(c & s3 & Hd & _ & ->)].
  - unfold ltm_time. cbn [final]. by rewrite prepare_ltm.
  - rewrite run_guarded_ltm_time by done.
    unfold ltm_time. by rewrite (draws_ltm _ _ _ Hd).
Qed.

Lemma for_range_raised_prefix {St} (body : M St unit) (k m : nat) :
  ∀ s e s', k ≤ m → for_range k body s = Raised e s' →
            for_range m body s = Raised e s'.
Proof.
  revert m. induction k as [|k IH]; intros m s e s' Hle Hk; [done|].
  destruct m as [|m]; [lia|].
  cbn [for_range] in *. unfold bind in *.
  destruct (body s) as [[] s1|e1 s1]; [|done].
  apply IH; [lia | done].
Qed.

Lemma for_range_snoc {St} (body : M St unit) (k : nat) :
  ∀ s s1, for_range k body s = Returned tt s1 →
          for_range (S k) body s = body s1.
Proof.
  induction k as [|k IH]; intros s s1 Hk.
  - cbn in Hk. unfold ret in Hk. simplify_eq. cbn. unfold bind.
    by destruct (body s1) as [[] ?|? ?].
  - change (for_range (S (S k)) body s)
      with (bind body (fun _ => for_range (S k) body) s).
    cbn [for_range] in Hk. unfold bind in *.
    destruct (body s) as [[] s2|e2 s2]; [|done].
    by apply IH.
Qed.

Lemma for_range_Step_counts (n : nat) :
  counter_untouched cls →
  ∀ s s', for_range n (Step cls) s = Returned tt s' →
          steps_taken s' = steps_taken s + n.
Proof.
  intros Hc. induction n as [|n IH]; intros s s' Hn.
  - cbn in Hn. unfold ret in Hn. simplify_eq. lia.
  - cbn [for_range] in Hn. unfold bind in Hn.
    pose proof (Step_steps_taken s Hc) as H1.
    destruct (Step cls s) as [[] s1|e1 s1]; [|done]. cbn in H1.
    rewrite (IH _ _ Hn), H1. lia.
Qed.

Lemma Step_returns s :
  only_recoverable cls → handler_returns cls → returns (Step cls s) = true.
Proof.
  intros Hr Hh. destruct (Step_cases s) as [[_ ->]|(c & s3 & Hd & _ & ->)]; [done|].
  unfold run_guarded, try_except.
  destruct (Run cls c s3) as [[] s4|e s4] eqn:E; [done|].
  rewrite (Hr _ _ _ _ E). apply Hh.
Qed.

Lemma for_range_Step_returns (n : nat) :
  only_recoverable cls → handler_returns cls →
  ∀ s, ∃ s', for_range n (Step cls) s = Returned tt s'.
Proof.
  intros Hr Hh. induction n as [|n IH]; intros s; [by exists s|].
  cbn [for_range]. unfold bind.
  pose proof (Step_returns s Hr Hh) as H1.
  destruct (Step cls s) as [[] s1|e1 s1]; [|done]. apply IH.
Qed.

Lemma calls_steps_taken (n : nat) :
  counter_untouched cls →
  ∀ s, steps_taken (calls cls n s) = steps_taken s + n.
Proof.
  intros Hc. induction n as [|n IH]; intros s; cbn [calls]; [lia|].
  rewrite IH, Step_steps_taken by done. lia.
Qed.

Lemma calls_ltm_time (n : nat) :
  counter_untouched cls → clock_untouched cls →
  ∀ s, is_Some (ltm s) →
       ltm_time (calls cls (S n) s) = Some (steps_taken s + S n).
Proof.
  intros Hc Hk. induction n as [|n IH]; intros s [l Hl].
  - cbn [calls]. rewrite (Step_ltm_time s l) by done. f_equal.
  - change (calls cls (S (S n)) s) with (calls cls (S n) (final (Step cls s))).
    pose proof (Step_ltm_time s l Hk Hl) as Ht.
    rewrite IH.
    + rewrite Step_steps_taken by done. f_equal. lia.
    + unfold ltm_time in Ht. destruct (ltm (final (Step cls s))); [by eexists | done].
Qed.


Lemma inject_all_same_families (triples triples' : list (Family * Q * Q)) :
  ∀ s, triples.*1 = triples'.*1 →
       inject_all cls triples s = inject_all cls triples' s.
Proof.
  revert triples'. induction triples as [|[fu p] rest IH];
    intros [|[fu' p'] rest'] s Heq; try done.
  cbn in Heq. simplify_eq. cbn [inject_all].
  unfold codelet_of. cbn. by apply IH.
Qed.

Lemma inject_all_room (triples : list (Family * Q * Q)) :
  ∀ s, length (_codelets (coderack s)) + length triples
         ≤ _max_capacity (coderack s) →
       _codelets (coderack (inject_all cls triples s))
       = rev (codelet_of <$> triples) ++ _codelets (coderack s).
Proof.
  induction triples as [|t rest IH]; intros s Hlen; [done|].
  cbn [inject_all]. cbn [length] in Hlen.
  unfold coderack_AddCodelet. rewrite AddCodelet_room by lia. cbn [final].
  rewrite IH; cbn; [|lia].
  by rewrite <- app_assoc.
Qed.

End WithClass.

(** *** Facts about the sample applications *)

Import samples.

Lemma seeker_Run_final c s : final (seeker_Run c s) = s.
Proof. unfold seeker_Run. by destruct (String.eqb (family c) "halt"). Qed.

Lemma record_and_continue_returns e s :
  ∃ s', record_and_continue e s = Returned tt s'
    ∧ steps_taken s' = steps_taken s ∧ ltm s' = ltm s.
Proof. destruct e; by eexists. Qed.

Lemma seeker_counter_untouched : counter_untouched seeker.
Proof.
  split; intros x s; cbn.
  - by rewrite seeker_Run_final.
  - by destruct (record_and_continue_returns x s) as (s' & -> & Hs & _).
Qed.

Lemma seeker_clock_untouched : clock_untouched seeker.
Proof.
  split; intros x s; cbn.
  - by rewrite seeker_Run_final.
  - destruct (record_and_continue_returns x s) as (s' & -> & _ & Hl).
    unfold ltm_time. cbn. by rewrite Hl.
Qed.

Lemma seeker_no_coderack_error : no_coderack_error seeker.
Proof.
  split.
  - intros c s s'. cbn. unfold seeker_Run.
    by destruct (String.eqb (family c) "halt").
  - intros e s s'. cbn.
    by destruct (record_and_continue_returns e s) as (s'' & -> & _).
Qed.

Lemma plodder_counter_untouched : counter_untouched plodder.
Proof.
  split; intros x s; cbn; [done|].
  by destruct (record_and_continue_returns x s) as (s' & -> & Hs & _).
Qed.

Lemma plodder_only_recoverable : only_recoverable plodder.
Proof. intros c s e s' Hr. cbn in Hr. unfold plodder_Run, raise in Hr. by simplify_eq. Qed.

Lemma plodder_handler_returns : handler_returns plodder.
Proof.
  intros e s. cbn.
  by destruct (record_and_continue_returns e s) as (s' & -> & _).
Qed.

End controller_facts.

(** ** The controller: the run loop *)

Module run_loop.
Import util codelet coderack controller coderack_facts controller_facts samples.
Import controller_terms samples_more.

(** For a class that brings a handler of its own: when the codelet that
    [Step] executes raises, the exception is caught exactly when it is
    a [FargException]; it is then passed to the handler, and [Step]
    ends the way the handler does; any other exception leaves [Step] as
    it was raised, with the controller in the state the codelet left it
    in. *)
Theorem Step_catches_recoverable_only
    (cls : ControllerClass) (s : Controller) (c : Codelet)
    (s3 : Controller) (e : Exn) (s4 : Controller) :
  draws cls s c s3 →
  Run cls c s3 = Raised e s4 →
  Step cls s = (if is_FargException e
                then HandleFargException cls e s4
                else Raised e s4)
  ∧ (is_FargException e = true →
     ∀ s5, HandleFargException cls e s4 = Returned tt s5 →
           Step cls s = Returned tt s5)
  ∧ (is_FargException e = false → Step cls s = Raised e s4).
Proof.
  intros Hd Hr.
  assert (Step cls s = if is_FargException e
                       then HandleFargException cls e s4
                       else Raised e s4) as Hs.
  { rewrite (Step_draws cls s c s3 Hd).
    unfold run_guarded, try_except. by rewrite Hr. }
  split; [done|]. split.
  - intros He s5 Hh. by rewrite Hs, He.
  - intros He. by rewrite Hs, He.
Qed.

(** [RunUptoNSteps(m)] stops at the first step out of which an
    exception propagates: when the steps before step [k] return and the
    codelet of step [k] raises an exception that is not a
    [FargException], the whole call raises that exception, is the same
    as a call for exactly [k] steps, and has counted [k] steps.  For a
    class that brings a handler which always returns, and codelets
    that raise nothing but [FargException]s, the call returns after [m]
    steps. *)
Theorem RunUptoNSteps_halting (cls : ControllerClass) :
  counter_untouched cls →
  (∀ (m k : nat) (s s1 : Controller) (c : Codelet) (s3 : Controller)
     (e : Exn) (s4 : Controller),
     0 < k → k ≤ m →
     for_range (k - 1) (Step cls) s = Returned tt s1 →
     draws cls s1 c s3 →
     Run cls c s3 = Raised e s4 →
     is_FargException e = false →
     RunUptoNSteps cls (Z.of_nat m) s = Raised e s4
     ∧ RunUptoNSteps cls (Z.of_nat m) s = RunUptoNSteps cls (Z.of_nat k) s
     ∧ steps_taken s4 = steps_taken s + k)
  ∧ (only_recoverable cls → handler_returns cls →
     ∀ (m : nat) (s : Controller),
       ∃ s', RunUptoNSteps cls (Z.of_nat m) s = Returned tt s'
             ∧ steps_taken s' = steps_taken s + m).
Proof.
  intros Hc. split.
  - intros m k s s1 c s3 e s4 Hk0 Hkm Hk Hd Hr He.
    assert (Step cls s1 = Raised e s4) as Hstep.
    { rewrite (Step_draws cls s1 c s3 Hd).
      unfold run_guarded, try_except. by rewrite Hr, He. }
    assert (for_range k (Step cls) s = Raised e s4) as HSk.
    { replace k with (S (k - 1)) by lia.
      by rewrite (for_range_snoc _ _ _ _ Hk). }
    unfold RunUptoNSteps. rewrite !Nat2Z.id.
    rewrite (for_range_raised_prefix (Step cls) k m s e s4) by (lia || done).
    split; [done|]. split; [by rewrite HSk|].
    pose proof (Step_steps_taken cls s1 Hc) as H1.
    rewrite Hstep in H1. cbn in H1. rewrite H1.
    rewrite (for_range_Step_counts cls (k - 1) Hc s s1 Hk). lia.
  - intros Hr Hh m s. unfold RunUptoNSteps. rewrite Nat2Z.id.
    destruct (for_range_Step_returns cls m Hr Hh s) as [s' Hs'].
    exists s'. split; [done|]. by eapply for_range_Step_counts.
Qed.

(** C2.  On the class [Controller] as it is written the recoverable
    signal is caught but not absorbed: [Step] passes it to
    [self.HandleFargException], a method the class does not define, so
    that [AttributeError] leaves [Step] where the run should continue.
    An exception that is not a [FargException] leaves [Step] as it was
    raised.  Either way [Step] raises, with the controller in the state
    the codelet left it in. *)
Theorem Step_recoverable_signal_finds_no_handler
    (cls : ControllerClass) (s : Controller) (c : Codelet)
    (s3 : Controller) (e : Exn) (s4 : Controller) :
  HandleFargException cls = undefined_HandleFargException →
  draws cls s c s3 →
  Run cls c s3 = Raised e s4 →
  Step cls s
  = Raised (if is_FargException e then OtherException "AttributeError" else e)
           s4.
Proof.
  intros Hh Hd Hr. rewrite (Step_draws cls s c s3 Hd).
  unfold run_guarded, try_except. rewrite Hr, Hh.
  by destruct (is_FargException e).
Qed.

(** C3.  On the class [Controller] as it is written a recoverable
    signal does stop the loop: when the codelet of the first step
    raises a [FargException], [RunUptoNSteps(m)] ends at that step with
    the [AttributeError] of the missing handler, is the same as a call
    for one step, and has counted one step instead of [m]. *)
Theorem RunUptoNSteps_stopped_by_recoverable_signal
    (cls : ControllerClass) (m : nat) (s : Controller) (c : Codelet)
    (s3 : Controller) (e : Exn) (s4 : Controller) :
  HandleFargException cls = undefined_HandleFargException →
  0 < m →
  draws cls s c s3 →
  Run cls c s3 = Raised e s4 →
  is_FargException e = true →
  RunUptoNSteps cls (Z.of_nat m) s
  = Raised (OtherException "AttributeError") s4
  ∧ RunUptoNSteps cls (Z.of_nat m) s = RunUptoNSteps cls 1 s
  ∧ steps_taken s3 = steps_taken s + 1.
Proof.
  intros Hh Hm Hd Hr He.
  assert (Step cls s = Raised (OtherException "AttributeError") s4) as Hstep.
  { rewrite (Step_draws cls s c s3 Hd).
    unfold run_guarded, try_except. by rewrite Hr, He, Hh. }
  assert (for_range 1 (Step cls) s
          = Raised (OtherException "AttributeError") s4) as H1.
  { cbn. unfold bind. by rewrite Hstep. }
  unfold RunUptoNSteps. rewrite Nat2Z.id. change (Z.to_nat 1) with 1.
  rewrite (for_range_raised_prefix (Step cls) 1 m s _ s4) by (lia || done).
  split; [done|]. split; [by rewrite H1|].
  by eapply draws_steps_taken.
Qed.

(** C4.  [Step] first counts the step and then copies the new count
    into the attached long-term memory; so, on a controller that has
    taken no step yet and has a long-term memory attached, the memory's
    time counter reads [n] after [n] calls of [Step] (for [n = 0] this is
    the reading of a memory whose clock starts at zero).  From any
    state, the counter reads the step count after every call, so that
    time advances with the steps. *)
Theorem ltm_time_follows_steps (cls : ControllerClass) :
  counter_untouched cls → clock_untouched cls →
  (∀ (s : Controller) (l : LTM),
     ltm s = Some l →
     steps_taken (tick s) = steps_taken s + 1
     ∧ ltm_time (tick s) = Some (steps_taken (tick s)))
  ∧ (∀ (n : nat) (s : Controller) (l : LTM),
       steps_taken s = 0 → ltm s = Some l →
       0 < n ∨ _timesteps l = 0 →
       ltm_time (calls cls n s) = Some n)
  ∧ (∀ (n : nat) (s : Controller) (l : LTM),
       ltm s = Some l →
       ltm_time (calls cls (S n) s) = Some (steps_taken (calls cls (S n) s))
       ∧ steps_taken (calls cls (S n) s) = steps_taken s + S n).
Proof.
  intros Hc Hk. split; [|split].
  - intros s l Hl. rewrite tick_steps_taken. split; [done|].
    by eapply tick_ltm_time.
  - intros [|n] s l H0 Hl Hn.
    + destruct Hn as [Hn|Hz]; [lia|].
      unfold ltm_time. cbn [calls]. rewrite Hl. cbn. by rewrite Hz.
    + rewrite calls_ltm_time by (done || by eexists). by rewrite H0.
  - intros n s l Hl.
    rewrite calls_ltm_time by (done || by eexists).
    by rewrite calls_steps_taken.
Qed.

(** C5.  When the coderack is empty at the time of injection, every
    configured triple is handed to the coderack, whatever its
    probability and whatever [force] was: the outcome is that of
    injecting all triples, it depends on the families and urgencies
    only, and with at least one triple configured the coderack is not
    empty afterwards -- in particular when [Step] reaches its emptiness
    test.  When the triples fit into the coderack, it then holds exactly
    their codelets. *)
Theorem forced_bootstrap (cls : ControllerClass) (force : bool)
    (s : Controller) :
  IsEmpty (coderack s) = true →
  _AddRoutineCodelets cls force s
  = Returned tt (inject_all cls (routine_codelets_to_add cls) s)
  ∧ (∀ triples' : list (Family * Q * Q),
       triples'.*1 = (routine_codelets_to_add cls).*1 →
       inject_all cls triples' s
       = inject_all cls (routine_codelets_to_add cls) s)
  ∧ (routine_codelets_to_add cls ≠ [] →
     IsEmpty (coderack (final (_AddRoutineCodelets cls force s))) = false
     ∧ IsEmpty (coderack (prepare cls s)) = false)
  ∧ (length (routine_codelets_to_add cls) ≤ _max_capacity (coderack s) →
     _codelets (coderack (final (_AddRoutineCodelets cls force s)))
     = rev (codelet_of <$> routine_codelets_to_add cls)).
Proof.
  intros He.
  pose proof (_AddRoutineCodelets_empty_rack cls force s He) as Hinj.
  split; [done|]. split; [|split].
  - intros triples' Heq. by apply inject_all_same_families.
  - intros Hne. rewrite Hinj. cbn [final]. split.
    + by apply inject_all_nonempty.
    + unfold prepare.
      rewrite _AddRoutineCodelets_empty_rack by (by rewrite tick_coderack).
      by apply inject_all_nonempty.
  - intros Hlen. rewrite Hinj. cbn [final].
    rewrite inject_all_room.
    + apply IsEmpty_true_nil in He. rewrite He. by rewrite app_nil_r.
    + apply IsEmpty_true_nil in He. rewrite He. cbn. lia.
Qed.


(** C6 as stated fails: on a controller without routine codelets whose
    coderack is empty, a call of [Step] draws and executes no codelet. *)
Lemma Step_may_execute_no_codelet : ¬ executes_one idle idle0.
Proof. intros (c & s3 & [Hne _] & _). vm_compute in Hne. discriminate. Qed.

(** C6, amended.  Every call of [Step] injects the routine codelets
    (the injection always returns) and then executes at most one
    codelet: if the coderack is empty after the injection the call
    returns at once; otherwise exactly one codelet is drawn, it is
    removed from the coderack before it runs, and the rest of the call
    is the guarded run of that codelet. *)
Theorem Step_executes_at_most_one (cls : ControllerClass) (s : Controller) :
  _AddRoutineCodelets cls false (tick s) = Returned tt (prepare cls s)
  ∧ if IsEmpty (coderack (prepare cls s))
    then Step cls s = Returned tt (prepare cls s)
    else ∃ (c : Codelet) (s3 : Controller),
           draws cls s c s3
           ∧ _codelets (coderack (prepare cls s))
               ≡ₚ c :: _codelets (coderack s3)
           ∧ Step cls s = run_guarded cls c s3.
Proof.
  split; [apply prepare_spec|].
  destruct (Step_cases cls s) as [[He Hs]|(c & s3 & Hd & Hp & Hs)].
  - by rewrite He.
  - destruct Hd as [Hne Hd]. rewrite Hne. by exists c, s3.
Qed.

(** C9.  [Step] draws only after finding the coderack non-empty, and
    that draw succeeds: an exception that leaves [Step] was raised by
    the guarded run of the drawn codelet, never by the draw.  So, as
    long as codelet actions and handler do not raise it themselves,
    [EmptyCoderackError] never leaves [Step]; and on a controller
    without routine codelets and with an empty coderack, [Step] only
    counts the step and returns, executing no codelet. *)
Theorem Step_never_draws_from_empty (cls : ControllerClass) :
  (∀ (s : Controller) (e : Exn) (s' : Controller),
     Step cls s = Raised e s' →
     ∃ c s3, draws cls s c s3 ∧ run_guarded cls c s3 = Raised e s')
  ∧ (∀ s : Controller,
       IsEmpty (coderack (prepare cls s)) = false →
       ∃ c s3, coderack_GetCodelet (prepare cls s) = Returned c s3)
  ∧ (no_coderack_error cls →
     ∀ s s' : Controller, Step cls s ≠ Raised EmptyCoderackError s')
  ∧ (routine_codelets_to_add cls = [] →
     ∀ s : Controller,
       IsEmpty (coderack s) = true →
       Step cls s = Returned tt (tick s)
       ∧ ¬ ∃ c s3, draws cls s c s3).
Proof.
  assert (∀ s e s', Step cls s = Raised e s' →
            ∃ c s3, draws cls s c s3 ∧ run_guarded cls c s3 = Raised e s') as Hsrc.
  { intros s e s' Hs.
    destruct (Step_cases cls s) as [[_ Hi]|(c & s3 & Hd & _ & Hg)].
    - by rewrite Hi in Hs.
    - exists c, s3. split; [done|]. by rewrite <- Hg. }
  split; [done|]. split; [|split].
  - intros s Hne. destruct (draws_exists cls s Hne) as (c & s3 & [_ Hd] & _).
    by exists c, s3.
  - intros [HR HH] s s' Hs.
    destruct (Hsrc _ _ _ Hs) as (c & s3 & _ & Hg).
    unfold run_guarded, try_except in Hg.
    destruct (Run cls c s3) as [[] s4|e s4] eqn:E; [done|].
    destruct (is_FargException e) eqn:Ee.
    + by eapply HH.
    + simplify_eq. by eapply HR.
  - intros Hnil s He.
    assert (prepare cls s = tick s) as Hp.
    { unfold prepare, _AddRoutineCodelets. by rewrite Hnil. }
    assert (IsEmpty (coderack (prepare cls s)) = true) as Hpe.
    { by rewrite Hp, tick_coderack. }
    split.
    + by rewrite (Step_idle cls s Hpe), Hp.
    + intros (c & s3 & [Hne _]). congruence.
Qed.

(** C10.  Each call of [Step] adds exactly one to [steps_taken], whether
    the call returns or raises; the addition is made at the start, so
    that the executed codelet already runs under the new count, and it
    is still there when an exception leaves [Step].  Hence a run of a
    fresh controller that halts on step [k] ends with [steps_taken]
    equal to [k]. *)
Theorem steps_taken_counts_every_call (cls : ControllerClass) :
  counter_untouched cls →
  (∀ s : Controller, steps_taken (final (Step cls s)) = steps_taken s + 1)
  ∧ (∀ (s : Controller) (c : Codelet) (s3 : Controller),
       draws cls s c s3 → steps_taken s3 = steps_taken s + 1)
  ∧ (∀ (s : Controller) (e : Exn) (s' : Controller),
       Step cls s = Raised e s' → steps_taken s' = steps_taken s + 1)
  ∧ (∀ (m k : nat) (s s1 : Controller) (e : Exn) (s' : Controller),
       steps_taken s = 0 → 0 < k → k ≤ m →
       for_range (k - 1) (Step cls) s = Returned tt s1 →
       Step cls s1 = Raised e s' →
       RunUptoNSteps cls (Z.of_nat m) s = Raised e s'
       ∧ steps_taken s' = k).
Proof.
  intros Hc.
  assert (∀ s e s', Step cls s = Raised e s' →
                    steps_taken s' = steps_taken s + 1) as Hraised.
  { intros s e s' Hs. pose proof (Step_steps_taken cls s Hc) as H1.
    by rewrite Hs in H1. }
  split; [intros s; by apply Step_steps_taken|].
  split; [intros s c s3; by apply draws_steps_taken|].
  split; [done|].
  intros m k s s1 e s' H0 Hk0 Hkm Hk Hs.
  split.
  - unfold RunUptoNSteps. rewrite Nat2Z.id.
    apply (for_range_raised_prefix (Step cls) k m); [done|].
    replace k with (S (k - 1)) by lia.
    by rewrite (for_range_snoc _ _ _ _ Hk).
  - rewrite (Hraised _ _ _ Hs).
    rewrite (for_range_Step_counts cls (k - 1) Hc s s1 Hk). lia.
Qed.


(** *** The statements at work on the sample applications *)

Lemma Step_catches_recoverable_only_witness :
  Step seeker seeker0 = Raised (OtherException "AnswerFound") seeker0_drawn.
Proof.
  refine (proj2 (proj2 (Step_catches_recoverable_only
            seeker seeker0 halt_codelet seeker0_drawn
            (OtherException "AnswerFound") seeker0_drawn _ _)) _).
  - split; vm_compute; reflexivity.
  - vm_compute; reflexivity.
  - reflexivity.
Defined.

Lemma RunUptoNSteps_halting_witness :
  (RunUptoNSteps seeker 5 seeker1
   = Raised (OtherException "AnswerFound") seeker1_drawn
   ∧ RunUptoNSteps seeker 5 seeker1 = RunUptoNSteps seeker 2 seeker1
   ∧ steps_taken seeker1_drawn = steps_taken seeker1 + 2)
  ∧ ∃ s', RunUptoNSteps plodder 4 plodder0 = Returned tt s'
          ∧ steps_taken s' = steps_taken plodder0 + 4.
Proof.
  split.
  - refine (proj1 (RunUptoNSteps_halting seeker seeker_counter_untouched)
              5 2 seeker1 seeker1_stepped halt_codelet seeker1_drawn
              (OtherException "AnswerFound") seeker1_drawn _ _ _ _ _ _).
    + lia.
    + lia.
    + vm_compute; reflexivity.
    + split; vm_compute; reflexivity.
    + vm_compute; reflexivity.
    + reflexivity.
  - exact (proj2 (RunUptoNSteps_halting plodder plodder_counter_untouched)
             plodder_only_recoverable plodder_handler_returns 4 plodder0).
Defined.

Lemma Step_recoverable_signal_finds_no_handler_witness :
  Step bare bare1 = Raised (OtherException "AttributeError") bare1_drawn.
Proof.
  refine (Step_recoverable_signal_finds_no_handler bare bare1 retry_codelet
            bare1_drawn (FargException "no luck in retry") bare1_drawn
            _ _ _).
  - reflexivity.
  - split; vm_compute; reflexivity.
  - vm_compute; reflexivity.
Defined.

Lemma RunUptoNSteps_stopped_by_recoverable_signal_witness :
  only_recoverable bare
  ∧ RunUptoNSteps bare 4 bare1
    = Raised (OtherException "AttributeError") bare1_drawn
  ∧ RunUptoNSteps bare 4 bare1 = RunUptoNSteps bare 1 bare1
  ∧ steps_taken bare1_drawn = steps_taken bare1 + 1.
Proof.
  split; [exact plodder_only_recoverable|].
  refine (RunUptoNSteps_stopped_by_recoverable_signal bare 4 bare1
            retry_codelet bare1_drawn (FargException "no luck in retry")
            bare1_drawn _ _ _ _ _).
  - reflexivity.
  - lia.
  - split; vm_compute; reflexivity.
  - vm_compute; reflexivity.
  - reflexivity.
Defined.

Lemma ltm_time_follows_steps_witness :
  ltm_time (calls seeker 3 seeker0) = Some 3.
Proof.
  refine (proj1 (proj2 (ltm_time_follows_steps seeker
            seeker_counter_untouched seeker_clock_untouched))
            3 seeker0 (blank_ltm "memory") _ _ _).
  - reflexivity.
  - reflexivity.
  - left. lia.
Defined.

Lemma forced_bootstrap_witness :
  _AddRoutineCodelets seeker false seeker_drained
  = Returned tt (inject_all seeker (routine_codelets_to_add seeker) seeker_drained)
  ∧ IsEmpty (coderack (final (_AddRoutineCodelets seeker false seeker_drained)))
    = false.
Proof.
  pose proof (forced_bootstrap seeker false seeker_drained eq_refl)
    as (Hall & _ & Hne & _).
  split; [exact Hall|].
  refine (proj1 (Hne _)). discriminate.
Defined.

Lemma Step_never_draws_from_empty_witness :
  (∀ s s' : Controller, Step seeker s ≠ Raised EmptyCoderackError s')
  ∧ Step idle idle0 = Returned tt (tick idle0).
Proof.
  split.
  - exact (proj1 (proj2 (proj2 (Step_never_draws_from_empty seeker)))
             seeker_no_coderack_error).
  - refine (proj1 (proj2 (proj2 (proj2 (Step_never_draws_from_empty idle)))
                     eq_refl idle0 _)).
    reflexivity.
Defined.

Lemma steps_taken_counts_every_call_witness :
  steps_taken (final (Step seeker seeker0)) = steps_taken seeker0 + 1
  ∧ (RunUptoNSteps seeker 5 seeker1
     = Raised (OtherException "AnswerFound") seeker1_drawn
     ∧ steps_taken seeker1_drawn = 2).
Proof.
  pose proof (steps_taken_counts_every_call seeker seeker_counter_untouched)
    as (Hone & _ & _ & Hrun).
  split; [exact (Hone seeker0)|].
  refine (Hrun 5 2 seeker1 seeker1_stepped (OtherException "AnswerFound")
            seeker1_drawn _ _ _ _ _).
  - reflexivity.
  - lia.
  - lia.
  - vm_compute; reflexivity.
  - vm_compute; reflexivity.
Defined.

End run_loop.

(** ** The memoized constructor and the base category *)

Module meta_facts.
Import meta.

Section Store.
Context {K : Type} `{Countable K} (valid : K → bool).

(** A request that finds its key settled: it answers [r] and leaves the
    store as it is. *)
Lemma GetOrCreate_settles (k : K) (st : Store K) :
  GetOrCreate valid k (GetOrCreate valid k st).2
  = ((GetOrCreate valid k st).1, (GetOrCreate valid k st).2).
Proof.
  unfold GetOrCreate.
  destruct (memo st !! k) as [obj|] eqn:Hk; cbn.
  - by rewrite ?Hk.
  - destruct (valid k) eqn:Hv; cbn.
    + by rewrite lookup_insert_eq.
    + by rewrite ?Hk, ?Hv.
Qed.

Lemma settled_cases (k : K) (r : ConstructionError + nat) (st : Store K) :
  GetOrCreate valid k st = (r, st) →
  (∃ obj, memo st !! k = Some obj ∧ r = inr obj)
  ∨ (memo st !! k = None ∧ valid k = false ∧ r = inl construction_error).
Proof.
  unfold GetOrCreate. intros Hg.
  destruct (memo st !! k) as [obj|] eqn:Hk.
  - left. exists obj. by simplify_eq.
  - right. destruct (valid k) eqn:Hv; [|by simplify_eq].
    exfalso. injection Hg as _ Hst.
    apply (f_equal next_id) in Hst. cbn in Hst. lia.
Qed.

(** Once settled, a key stays settled whatever else is requested. *)
Lemma settled_preserved (k k' : K) (r : ConstructionError + nat) (st : Store K) :
  GetOrCreate valid k st = (r, st) →
  GetOrCreate valid k (GetOrCreate valid k' st).2
  = (r, (GetOrCreate valid k' st).2).
Proof.
  intros Hs.
  destruct (settled_cases k r st Hs) as [(obj & Hk & ->)|(Hk & Hv & ->)].
  - unfold GetOrCreate at 2 3.
    destruct (memo st !! k') as [obj'|] eqn:Hk'; cbn; [done|].
    destruct (valid k'); cbn; [|done].
    unfold GetOrCreate. cbn.
    rewrite lookup_insert_ne by congruence. by rewrite Hk.
  - unfold GetOrCreate at 2 3.
    destruct (memo st !! k') as [obj'|] eqn:Hk'; cbn; [done|].
    destruct (valid k') eqn:Hv'; cbn; [|done].
    unfold GetOrCreate. cbn.
    rewrite lookup_insert_ne by congruence. by rewrite Hk, Hv.
Qed.

Lemma lifetime_cons (k : K) (ks : list K) (st : Store K) :
  lifetime valid (k :: ks) st
  = (GetOrCreate valid k st).1 :: lifetime valid ks (GetOrCreate valid k st).2.
Proof. cbn. by destruct (GetOrCreate valid k st). Qed.

Lemma lifetime_settled (ks : list K) :
  ∀ (st : Store K) (k : K) (r : ConstructionError + nat) (i : nat),
    GetOrCreate valid k st = (r, st) →
    ks !! i = Some k →
    lifetime valid ks st !! i = Some r.
Proof.
  induction ks as [|k0 ks IH]; intros st k r i Hs Hi; [done|].
  rewrite lifetime_cons. destruct i as [|i]; cbn in *.
  - simplify_eq. by rewrite Hs.
  - eapply IH; [|done]. by apply settled_preserved.
Qed.

Lemma lifetime_same_key (ks : list K) :
  ∀ (st : Store K) (i j : nat) (k : K),
    ks !! i = Some k → ks !! j = Some k →
    lifetime valid ks st !! i = lifetime valid ks st !! j.
Proof.
  induction ks as [|k0 ks IH]; intros st i j k Hi Hj; [done|].
  rewrite lifetime_cons.
  destruct i as [|i], j as [|j]; cbn in *; simplify_eq; [done| | |by eapply IH].
  - symmetry. eapply lifetime_settled; [|done]. apply GetOrCreate_settles.
  - eapply lifetime_settled; [|done]. apply GetOrCreate_settles.
Qed.

Lemma GetOrCreate_valid (k : K) (st : Store K) :
  valid k = true → ∃ obj, (GetOrCreate valid k st).1 = inr obj.
Proof.
  intros Hv. unfold GetOrCreate.
  destruct (memo st !! k); [by eexists|]. rewrite Hv. by eexists.
Qed.

Lemma lifetime_valid (ks : list K) :
  ∀ (st : Store K) (i : nat) (k : K),
    ks !! i = Some k → valid k = true →
    ∃ obj, lifetime valid ks st !! i = Some (inr obj).
Proof.
  induction ks as [|k0 ks IH]; intros st i k Hi Hv; [done|].
  rewrite lifetime_cons. destruct i as [|i]; cbn in *.
  - simplify_eq. destruct (GetOrCreate_valid k st Hv) as [obj ->]. by eexists.
  - by eapply IH.
Qed.

(** Requests made in between do not unsettle a key. *)
Lemma settled_after (others : list K) :
  ∀ (k : K) (r : ConstructionError + nat) (st : Store K),
    GetOrCreate valid k st = (r, st) →
    (GetOrCreate valid k
       (foldl (λ s k', (GetOrCreate valid k' s).2) st others)).1 = r.
Proof.
  induction others as [|k' others IH]; intros k r st Hs; cbn.
  - by rewrite Hs.
  - eapply IH. by apply settled_preserved.
Qed.

(** Identities are handed out once: in a well-formed store a key that is
    new receives an identity no registered key has. *)
Lemma GetOrCreate_fresh (k k' : K) (obj : nat) (st : Store K) :
  store_ok st → memo st !! k = None → valid k = true →
  memo st !! k' = Some obj →
  (GetOrCreate valid k st).1 ≠ inr obj.
Proof.
  intros Hok Hk Hv Hk'. unfold GetOrCreate. rewrite Hk, Hv. cbn.
  intros [= Heq]. specialize (Hok _ _ Hk'). lia.
Qed.

Lemma GetOrCreate_store_ok (k : K) (st : Store K) :
  store_ok st → store_ok (GetOrCreate valid k st).2.
Proof.
  intros Hok. unfold GetOrCreate.
  destruct (memo st !! k) eqn:Hk; [done|].
  destruct (valid k); [|done]. cbn.
  intros k1 obj1. cbn. rewrite lookup_insert.
  case_decide; intros Hl; simplify_eq; [lia|].
  specialize (Hok _ _ Hl). lia.
Qed.

End Store.
End meta_facts.

Module identity.
Import meta meta_facts category samples.

(** C1.  Constructing a category twice from equal content does not
    yield the identical object: the class body only binds the name
    [__metaclass__], which Python 3 ignores, so every call of the class
    makes a new object.  After two constructions from the same content
    the two identities differ and both objects are alive with that
    content. *)
Theorem Category_construction_not_memoized (content : Content) (h : Heap) :
  let first := construct content h in
  let second := construct content first.2 in
  first.1 ≠ second.1
  ∧ objects second.2 !! first.1 = Some content
  ∧ objects second.2 !! second.1 = Some content.
Proof.
  cbn. split; [lia|]. split.
  - rewrite lookup_insert_ne by lia. apply lookup_insert_eq.
  - apply lookup_insert_eq.
Qed.

(** C7.  On the base category each of the three operations of the
    category protocol raises, whatever it is given, and what it raises
    is a [FargError]: the class of the programming errors, which the
    [except FargException] of the run loop does not absorb. *)
Theorem base_category_operations_raise
    (self : Category) (item item' : Categorizable) (mapping : Mapping) :
  (∃ e, IsInstance self item = inl e
        ∧ is_FargError e = true ∧ is_FargException e = false)
  ∧ (∃ e, FindMapping self item item' = inl e
          ∧ is_FargError e = true ∧ is_FargException e = false)
  ∧ (∃ e, ApplyMapping self item mapping = inl e
          ∧ is_FargError e = true ∧ is_FargException e = false).
Proof. repeat split; by eexists. Qed.

End identity.

(** ** Start-up *)

Module main_facts.
Import controller main.

(** A computation that raises is not continued. *)
Lemma bind_raised {St A B} (c : M St A) (k : A → M St B) (s : St)
    (e : Exn) (s' : St) :
  c s = Raised e s' → bind c k s = Raised e s'.
Proof. intros Hc. unfold bind. by rewrite Hc. Qed.

Lemma bind_returned {St A B} (c : M St A) (k : A → M St B) (s : St)
    (a : A) (s' : St) :
  c s = Returned a s' → bind c k s = k a s'.
Proof. intros Hc. unfold bind. by rewrite Hc. Qed.

Section Invariant.
Context (P : MainState → Prop).

Lemma keeps_bind {A B} (c : M MainState A) (k : A → M MainState B) :
  keeps P c → (∀ a, keeps P (k a)) → keeps P (bind c k).
Proof.
  intros Hc Hk s Hs. unfold bind. specialize (Hc s Hs).
  destruct (c s) as [a s'|e s']; [by apply Hk | done].
Qed.

Lemma stops_bind_l {A B} (c : M MainState A) (k : A → M MainState B) :
  stops P c → stops P (bind c k).
Proof.
  intros Hc s Hs. unfold bind. destruct (Hc s Hs) as [Hr Hp].
  by destruct (c s) as [a s'|e s'].
Qed.

Lemma stops_bind_r {A B} (c : M MainState A) (k : A → M MainState B) :
  keeps P c → (∀ a, stops P (k a)) → stops P (bind c k).
Proof.
  intros Hc Hk s Hs. unfold bind. specialize (Hc s Hs).
  destruct (c s) as [a s'|e s']; [by apply Hk|].
  (* the prefix itself raised *)
  split; [done | done].
Qed.

Lemma keeps_ret {A} (a : A) : keeps P (ret a).
Proof. by intros s Hs. Qed.

Lemma keeps_raise {A} (e : Exn) : keeps P (@raise MainState A e).
Proof. by intros s Hs. Qed.

Lemma keeps_get : keeps P get.
Proof. by intros s Hs. Qed.

Lemma keeps_modify (f : MainState → MainState) :
  (∀ s, P s → P (f s)) → keeps P (modify f).
Proof. intros Hf s Hs. by apply Hf. Qed.

Lemma stops_raise {A} (e : Exn) : stops P (@raise MainState A e).
Proof. by intros s Hs. Qed.

End Invariant.

Section Unknown.
Context (cls : MainClass) (name : option string).

Lemma keeps_print (line : string) : keeps (pending name) (print line).
Proof. apply keeps_modify. by intros s Hs. Qed.

Lemma keeps_set_log_level (l : option Z) :
  keeps (pending name) (modify (set_log_level l)).
Proof. apply keeps_modify. by intros s Hs. Qed.

Lemma stops_exit_after_print (line : string) (code : Z) :
  stops (pending name) (bind (print line) (λ _, @sys_exit unit code)).
Proof.
  apply stops_bind_r; [apply keeps_print|]. intros _. apply stops_raise.
Qed.

Lemma keeps_exit_after_print (line : string) (code : Z) :
  keeps (pending name) (bind (print line) (λ _, @sys_exit unit code)).
Proof. intros s Hs. by apply stops_exit_after_print. Qed.

Lemma VerifyStoppingConditionSanity_exits (s : MainState) :
  unknown_stopping_condition cls (flags s) →
  ∃ s', VerifyStoppingConditionSanity cls s = Raised (SystemExit 1) s'
        ∧ run_mode s' = run_mode s ∧ flags s' = flags s ∧ fs s' = fs s.
Proof.
  intros (Ht & Hn & Hu).
  unfold VerifyStoppingConditionSanity, bind, get.
  destruct (String.eqb (run_mode_flag (flags s)) "gui").
  - rewrite Ht. by eexists.
  - rewrite Ht, Hn, Hu. by eexists.
Qed.

Lemma stops_VerifyStoppingConditionSanity :
  (∀ f, stopping_condition f = name → unknown_stopping_condition cls f) →
  stops (pending name) (VerifyStoppingConditionSanity cls).
Proof.
  intros Hu s [Hrm Hsc].
  destruct (VerifyStoppingConditionSanity_exits s (Hu _ Hsc))
    as (s' & -> & Hrm' & Hf' & _).
  split; [done|]. split; cbn; congruence.
Qed.

Lemma stops_ProcessFlags (env : Env) :
  custom_flags_keep cls →
  (∀ f, stopping_condition f = name → unknown_stopping_condition cls f) →
  stops (pending name) (ProcessFlags cls env).
Proof.
  intros Hhook Hu. unfold ProcessFlags.
  apply stops_bind_r; [apply keeps_get|]. intros s0.
  apply stops_bind_r.
  { destruct (truthy (debug_config (flags s0))); [|apply keeps_ret].
    destruct (fileConfig_ok env _); [apply keeps_ret | apply keeps_raise]. }
  intros _. apply stops_bind_r.
  { destruct (truthy (debug (flags s0))); [|apply keeps_ret].
    destruct (numeric_level env _).
    - apply keeps_set_log_level.
    - apply keeps_exit_after_print. }
  intros _. apply stops_bind_r.
  { intros s [Hrm Hsc]. destruct (Hhook s) as [H1 H2].
    split; congruence. }
  intros _. apply stops_bind_r; [apply keeps_get|]. intros s1.
  apply stops_bind_r.
  { destruct (truthy (input_spec_file (flags s1))); [|apply keeps_ret].
    apply keeps_bind.
    - destruct (negb (path_exists _ s1));
        [apply keeps_exit_after_print | apply keeps_ret].
    - intros _. destruct (negb (path_isfile _ s1));
        [apply keeps_exit_after_print | apply keeps_ret]. }
  intros _. apply stops_bind_l. by apply stops_VerifyStoppingConditionSanity.
Qed.

End Unknown.
End main_facts.

Module startup.
Import controller main main_facts samples.

(** C8.  A missing application name and an unknown stopping-condition
    name both end the construction of [Main] with an exception, before
    the run mode exists: nothing sequenced after the construction (such
    as [Run], which is what takes steps) is executed.  The missing name
    is met first and exits with status 1 before anything else is
    touched; the check of the stopping condition itself exits with
    status 1. *)
Theorem configuration_errors_fail_fast
    (cls : MainClass) (env : Env) (unprocessed_flags : Flags)
    (fs0 : FileSystem) (out0 : list string) :
  let s0 := fresh unprocessed_flags fs0 out0 in
  (truthy (application_name cls) = false →
   ∃ st, __init__ cls env unprocessed_flags s0 = Raised (SystemExit 1) st
         ∧ run_mode st = None ∧ fs st = fs0
         ∧ ∀ (B : Type) (k : unit → M MainState B),
             bind (__init__ cls env unprocessed_flags) k s0
             = Raised (SystemExit 1) st)
  ∧ (custom_flags_keep cls →
     unknown_stopping_condition cls unprocessed_flags →
     ∃ e st, __init__ cls env unprocessed_flags s0 = Raised e st
             ∧ run_mode st = None
             ∧ ∀ (B : Type) (k : unit → M MainState B),
                 bind (__init__ cls env unprocessed_flags) k s0 = Raised e st)
  ∧ (∀ s : MainState,
       unknown_stopping_condition cls (flags s) →
       ∃ st, VerifyStoppingConditionSanity cls s = Raised (SystemExit 1) st
             ∧ run_mode st = run_mode s).
Proof.
  intros s0. split; [|split].
  - intros Hname. unfold __init__ at 1. unfold bind at 1. rewrite Hname. cbn.
    eexists. split; [done|]. split; [done|]. split; [done|].
    intros B k. apply bind_raised.
    unfold __init__. unfold bind at 1. rewrite Hname. done.
  - intros Hhook Hunk.
    assert (stops (pending (stopping_condition unprocessed_flags))
              (__init__ cls env unprocessed_flags)) as Hstops.
    { unfold __init__. apply stops_bind_r.
      { destruct (negb (truthy (application_name cls)));
          [apply keeps_exit_after_print | apply keeps_ret]. }
      intros _. apply stops_bind_r; [apply keeps_modify; by intros s [? ?]|].
      intros _. apply stops_bind_r; [apply keeps_modify; by intros s [? ?]|].
      intros _. apply stops_bind_r; [apply keeps_modify; by intros s [? ?]|].
      intros _. apply stops_ProcessFlags; [done|].
      intros f Hf. destruct Hunk as (H1 & H2 & H3).
      unfold unknown_stopping_condition. by rewrite Hf. }
    destruct (Hstops s0) as [Hr [Hrm _]]; [done|].
    destruct (__init__ cls env unprocessed_flags s0) as [a st|e st] eqn:E;
      [done|].
    exists e, st. split; [done|]. split; [done|].
    intros B k. by apply bind_raised.
  - intros s Hunk.
    destruct (VerifyStoppingConditionSanity_exits cls s Hunk)
      as (st & Hst & Hrm & _).
    by exists st.
Qed.

Lemma configuration_errors_fail_fast_witness :
  (∃ st, __init__ nameless plain_env (single_run None)
           (fresh (single_run None) home_only []) = Raised (SystemExit 1) st
         ∧ run_mode st = None)
  ∧ (∃ e st, __init__ seqsee plain_env (single_run (Some "Bogus"))
               (fresh (single_run (Some "Bogus")) home_only []) = Raised e st
             ∧ run_mode st = None).
Proof.
  pose proof (configuration_errors_fail_fast nameless plain_env
                (single_run None) home_only []) as (Hname & _ & _).
  pose proof (configuration_errors_fail_fast seqsee plain_env
                (single_run (Some "Bogus")) home_only []) as (_ & Hcond & _).
  split.
  - destruct (Hname eq_refl) as (st & H1 & H2 & _). by exists st.
  - destruct Hcond as (e & st & H1 & H2 & _).
    + intros s. by split.
    + by repeat split.
    + by exists e, st.
Defined.

End startup.

(** ** The controller: construction, injection and scheduling *)

Module controller_more.
Import util codelet coderack controller coderack_facts controller_facts samples.
Import controller_terms.

Section WithClass.
Context (cls : ControllerClass).

Lemma coderack_AddCodelet_room c s :
  length (_codelets (coderack s)) < _max_capacity (coderack s) →
  coderack_AddCodelet cls c s
  = Returned tt (set_coderack (insert_codelet c (coderack s)) s).
Proof.
  intros Hroom. unfold coderack_AddCodelet.
  rewrite AddCodelet_room by done. by destruct s.
Qed.

Lemma coderack_AddCodelet_capacity c s :
  _max_capacity (coderack (final (coderack_AddCodelet cls c s)))
  = _max_capacity (coderack s).
Proof.
  unfold coderack_AddCodelet.
  pose proof (AddCodelet_capacity (eviction_weight cls) c (coderack s) (rng s)) as Hc.
  by destruct (coderack.AddCodelet _ c (coderack s) (rng s)).
Qed.

Lemma evict_one_tape ew rack r :
  tape (evict_one ew rack r).2 = tape r
  ∧ cursor r ≤ cursor (evict_one ew rack r).2.
Proof.
  unfold evict_one, weighted_draw. destruct (IsEmpty rack); [done|]. cbn.
  destruct (pick _ _ _) as [[? ?]|]; cbn; split; (done || lia).
Qed.

Lemma AddCodelet_tape ew c rack r :
  tape (coderack.AddCodelet ew c rack r).2 = tape r
  ∧ cursor r ≤ cursor (coderack.AddCodelet ew c rack r).2.
Proof.
  unfold coderack.AddCodelet. case_decide; [|done].
  pose proof (evict_one_tape ew rack r) as Ht.
  by destruct (evict_one ew rack r).
Qed.

Lemma rng_advanced_refl s : rng_advanced s s.
Proof. by split. Qed.

Lemma rng_advanced_trans s1 s2 s3 :
  rng_advanced s1 s2 → rng_advanced s2 s3 → rng_advanced s1 s3.
Proof. intros [? ?] [? ?]. split; [congruence | lia]. Qed.

Lemma coderack_AddCodelet_rng c s :
  rng_advanced s (final (coderack_AddCodelet cls c s)).
Proof.
  unfold coderack_AddCodelet, rng_advanced.
  pose proof (AddCodelet_tape (eviction_weight cls) c (coderack s) (rng s)) as Ht.
  by destruct (coderack.AddCodelet _ c (coderack s) (rng s)).
Qed.

Lemma inject_all_capacity triples :
  ∀ s, _max_capacity (coderack (inject_all cls triples s))
       = _max_capacity (coderack s).
Proof.
  induction triples as [|t rest IH]; intros s; [done|].
  cbn [inject_all]. by rewrite IH, coderack_AddCodelet_capacity.
Qed.

Lemma inject_all_same_attributes triples :
  ∀ s, same_attributes s (inject_all cls triples s)
       ∧ rng_advanced s (inject_all cls triples s).
Proof.
  induction triples as [|t rest IH]; intros s.
  { split; [apply same_attributes_refl | apply rng_advanced_refl]. }
  cbn [inject_all].
  destruct (IH (final (coderack_AddCodelet cls (codelet_of t) s))) as [Ha Hr].
  destruct (coderack_AddCodelet_returns cls (codelet_of t) s) as (s1 & Hs1 & Ha1 & _).
  pose proof (coderack_AddCodelet_rng (codelet_of t) s) as Hr1.
  rewrite Hs1 in *. cbn [final] in *.
  split; [by eapply same_attributes_trans | by eapply rng_advanced_trans].
Qed.

Lemma inject_all_room_rng triples :
  ∀ s, length (_codelets (coderack s)) + length triples
         ≤ _max_capacity (coderack s) →
       rng (inject_all cls triples s) = rng s.
Proof.
  induction triples as [|t rest IH]; intros s Hlen; [done|].
  cbn [inject_all]. cbn [length] in Hlen.
  rewrite coderack_AddCodelet_room by lia. cbn [final].
  rewrite IH; [done|]. cbn. lia.
Qed.


Lemma AddCodelet_length ew c rack r :
  ∃ rest, _codelets (coderack.AddCodelet ew c rack r).1 = c :: rest
    ∧ rest ⊆+ _codelets rack.
Proof.
  unfold coderack.AddCodelet. case_decide; [|by eexists].
  unfold evict_one, weighted_draw. destruct (IsEmpty rack); [by eexists|]. cbn.
  destruct (pick _ _ _) as [[d rest]|] eqn:Hp; cbn; [|by eexists].
  exists rest. split; [done|].
  apply pick_perm in Hp. rewrite Hp. by apply submseteq_cons.
Qed.

Lemma coderack_AddCodelet_length c s :
  ∃ rest, _codelets (coderack (final (coderack_AddCodelet cls c s))) = c :: rest
    ∧ rest ⊆+ _codelets (coderack s).
Proof.
  unfold coderack_AddCodelet.
  pose proof (AddCodelet_length (eviction_weight cls) c (coderack s) (rng s)) as Hl.
  by destruct (coderack.AddCodelet _ c (coderack s) (rng s)).
Qed.

Lemma toss_rng p s :
  ∃ b, toss p s = Returned b (set_rng (drawn 1 (rng s)) s)
       ∧ b = Qle_bool (tape (rng s) (cursor (rng s))) p.
Proof.
  unfold toss, Toss, random, drawn. cbn. eexists. split; [|done].
  do 3 f_equal. lia.
Qed.

(** What one round of the injection loop can do to the controller. *)
Lemma add_routine_loop_bounds force triples :
  ∀ s, ∃ s', add_routine_loop cls force triples s = Returned tt s'
    ∧ same_attributes s s'
    ∧ rng_advanced s s'
    ∧ _max_capacity (coderack s') = _max_capacity (coderack s)
    ∧ (IsEmpty (coderack s) = false → IsEmpty (coderack s') = false)
    ∧ length (_codelets (coderack s'))
      ≤ length (_codelets (coderack s)) + length triples.
Proof.
  induction triples as [|[[f u] p] rest IH]; intros s.
  { exists s. repeat split; try done; cbn; lia. }
  set (c := {| family := f; urgency := u; args := [] |}).
  assert (∀ s0, ∃ s1, coderack_AddCodelet cls c s0 = Returned tt s1
            ∧ same_attributes s0 s1 ∧ rng_advanced s0 s1
            ∧ _max_capacity (coderack s1) = _max_capacity (coderack s0)
            ∧ IsEmpty (coderack s1) = false
            ∧ length (_codelets (coderack s1))
              ≤ S (length (_codelets (coderack s0)))) as Hadd.
  { intros s0.
    destruct (coderack_AddCodelet_returns cls c s0) as (s1 & Hs1 & Ha & Hne).
    pose proof (coderack_AddCodelet_rng c s0) as Hr.
    pose proof (coderack_AddCodelet_capacity c s0) as Hc.
    destruct (coderack_AddCodelet_length c s0) as (tl & Htl & Hsub).
    rewrite Hs1 in *. cbn [final] in *.
    exists s1. repeat split; try done; try apply Ha; try apply Hr.
    rewrite Htl. cbn. apply submseteq_length in Hsub. lia. }
  assert (∀ s1, same_attributes s s1 → rng_advanced s s1 →
            _max_capacity (coderack s1) = _max_capacity (coderack s) →
            (IsEmpty (coderack s) = false → IsEmpty (coderack s1) = false) →
            length (_codelets (coderack s1))
              ≤ S (length (_codelets (coderack s))) →
            ∃ s', add_routine_loop cls force rest s1 = Returned tt s'
              ∧ same_attributes s s' ∧ rng_advanced s s'
              ∧ _max_capacity (coderack s') = _max_capacity (coderack s)
              ∧ (IsEmpty (coderack s) = false → IsEmpty (coderack s') = false)
              ∧ length (_codelets (coderack s'))
                ≤ length (_codelets (coderack s)) + length ((f, u, p) :: rest))
    as Hrest.
  { intros s1 Ha Hr Hc Hne Hl.
    destruct (IH s1) as (s' & Hs' & Ha' & Hr' & Hc' & Hne' & Hl').
    exists s'. split; [done|].
    split; [by eapply same_attributes_trans|].
    split; [by eapply rng_advanced_trans|].
    split; [congruence|]. split; [naive_solver|]. cbn. lia. }
  cbn [add_routine_loop]. unfold bind. fold c.
  destruct force.
  - unfold ret at 1.
    destruct (Hadd s) as (s1 & -> & Ha & Hr & Hc & Hne & Hl).
    by apply Hrest.
  - destruct (toss_rng p s) as (b & -> & _).
    assert (same_attributes s (set_rng (drawn 1 (rng s)) s)) as Ha0
      by by repeat split.
    assert (rng_advanced s (set_rng (drawn 1 (rng s)) s)) as Hr0
      by (split; cbn; [done | lia]).
    destruct b.
    + destruct (Hadd (set_rng (drawn 1 (rng s)) s))
        as (s1 & -> & Ha & Hr & Hc & Hne & Hl).
      apply Hrest;
        [by eapply same_attributes_trans | by eapply rng_advanced_trans
        | done | done | done].
    + unfold ret at 1. apply Hrest; [done | done | done | done | cbn; lia].
Qed.

Lemma drawn_0 r : drawn 0 r = r.
Proof. destruct r as [tp cu]. unfold drawn. cbn. by rewrite Nat.add_0_r. Qed.

Lemma drawn_drawn m n r : drawn m (drawn n r) = drawn (n + m) r.
Proof. unfold drawn. cbn. by rewrite Nat.add_assoc. Qed.

Lemma set_rng_same s : set_rng (rng s) s = s.
Proof. by destruct s. Qed.

Lemma add_routine_loop_failing triples :
  ∀ s, tosses_fail triples (rng s) →
       add_routine_loop cls false triples s
       = Returned tt (set_rng (drawn (length triples) (rng s)) s).
Proof.
  induction triples as [|[[f u] p] rest IH]; intros s Hfail.
  { cbn. unfold ret. by rewrite drawn_0, set_rng_same. }
  cbn [add_routine_loop]. unfold bind.
  destruct (toss_rng p s) as (b & -> & Hb).
  rewrite (Hfail (f, u, p) _) in Hb by apply list_elem_of_here. subst b.
  unfold ret at 1. rewrite IH.
  - cbn [rng set_rng]. rewrite drawn_drawn. done.
  - intros t n Ht. cbn. apply Hfail. by apply list_elem_of_further.
Qed.

Lemma for_range_add {St} (body : M St unit) (a b : nat) :
  ∀ s, for_range (a + b) body s
       = bind (for_range a body) (λ _, for_range b body) s.
Proof.
  induction a as [|a IH]; intros s; [done|].
  cbn [Nat.add for_range]. unfold bind.
  destruct (body s) as [[] s1|e s1]; [|done]. by rewrite IH.
Qed.


Lemma injection_frame_aux force s :
  ∃ s', _AddRoutineCodelets cls force s = Returned tt s'
    ∧ same_attributes s s'
    ∧ rng_advanced s s'
    ∧ _max_capacity (coderack s') = _max_capacity (coderack s).
Proof.
  unfold _AddRoutineCodelets.
  destruct (routine_codelets_to_add cls) as [|t rest] eqn:E.
  - exists s. split; [done|]. split; [by repeat split|]. by split.
  - destruct (add_routine_loop_bounds
                (if IsEmpty (coderack s) then true else force) (t :: rest) s)
      as (s' & Hs' & Ha & Hr & Hc & _).
    by exists s'.
Qed.

Lemma GetCodelet_rng rack r c rack' r' :
  GetCodelet rack r = inr (c, rack', r') →
  tape r' = tape r ∧ cursor r ≤ cursor r'.
Proof.
  unfold GetCodelet, weighted_draw. destruct (IsEmpty rack); [done|]. cbn.
  destruct (pick _ _ _) as [[? ?]|]; [|done].
  intros [= _ _ <-]. cbn. split; [done | lia].
Qed.

End WithClass.
End controller_more.

Module controller_laws.
Import util codelet coderack controller coderack_facts controller_facts samples.
Import controller_terms controller_more samples_more.

(** X1.  [Controller(ui=...)] always returns.  The new controller has
    taken no step, has an empty stream and the given ui; it has a
    long-term memory exactly when [ltm_name] is a non-empty string; its
    coderack has the capacity of the coderack class and is empty
    exactly when no routine codelets are configured; and when the
    configured triples fit, the coderack holds the codelet of every
    triple, whatever the probabilities, and chance was not consulted. *)
Theorem Controller_init_state
    (cls : ControllerClass) (ltms : string → LTM) (r : Rng)
    (ui0 : list string) :
  ∃ s, controller.__init__ cls ltms r ui0 = Returned tt s
    ∧ steps_taken s = 0 ∧ stream s = [] ∧ ui s = ui0
    ∧ ltm s = (if truthy (ltm_name cls) then ltms <$> ltm_name cls else None)
    ∧ _max_capacity (coderack s) = max_capacity cls
    ∧ (IsEmpty (coderack s) = true ↔ routine_codelets_to_add cls = [])
    ∧ (length (routine_codelets_to_add cls) ≤ max_capacity cls →
       _codelets (coderack s)
       = rev (codelet_of <$> routine_codelets_to_add cls)
       ∧ rng s = r).
Proof.
  unfold controller.__init__.
  set (blank := {| coderack := _ |}).
  rewrite (_AddRoutineCodelets_empty_rack cls true blank) by done.
  eexists. split; [done|].
  destruct (inject_all_same_attributes cls (routine_codelets_to_add cls) blank)
    as [(Hst & Hl & Hn & Hu) _].
  split; [by rewrite Hn|]. split; [by rewrite Hst|]. split; [by rewrite Hu|].
  split.
  { rewrite Hl. subst blank. cbn [ltm].
    destruct (ltm_name cls) as [name|]; [|done].
    destruct (truthy (Some name)); reflexivity. }
  split; [by rewrite inject_all_capacity|]. split.
  - split.
    + intros He. destruct (routine_codelets_to_add cls) as [|t rest] eqn:E;
        [done|].
      rewrite inject_all_nonempty in He; done.
    + by intros ->.
  - intros Hlen. split.
    + rewrite inject_all_room by (cbn; lia). by rewrite app_nil_r.
    + by rewrite inject_all_room_rng by (cbn; lia).
Qed.

(** X2.  With [force=True] the injection hands every configured triple
    to the coderack, also when the coderack is not empty: the outcome
    does not depend on the probabilities, no toss is made, and when
    there is room for all of them the codelets are put before the
    members already there and chance is not consulted at all. *)
Theorem forced_injection_ignores_probabilities
    (cls : ControllerClass) (s : Controller) :
  _AddRoutineCodelets cls true s
  = Returned tt (inject_all cls (routine_codelets_to_add cls) s)
  ∧ (∀ triples' : list (Family * Q * Q),
       triples'.*1 = (routine_codelets_to_add cls).*1 →
       inject_all cls triples' s
       = inject_all cls (routine_codelets_to_add cls) s)
  ∧ (length (_codelets (coderack s)) + length (routine_codelets_to_add cls)
       ≤ _max_capacity (coderack s) →
     _codelets (coderack (inject_all cls (routine_codelets_to_add cls) s))
     = rev (codelet_of <$> routine_codelets_to_add cls)
         ++ _codelets (coderack s)
     ∧ rng (inject_all cls (routine_codelets_to_add cls) s) = rng s).
Proof.
  split; [|split].
  - unfold _AddRoutineCodelets.
    replace (if IsEmpty (coderack s) then true else true) with true
      by by destruct (IsEmpty (coderack s)).
    destruct (routine_codelets_to_add cls) as [|t rest] eqn:E; [done|].
    apply add_routine_loop_forced.
  - intros triples' Heq. by apply inject_all_same_families.
  - intros Hlen. split.
    + by apply inject_all_room.
    + by apply inject_all_room_rng.
Qed.

(** X3.  The injection of routine codelets never raises and touches
    nothing but the coderack and the random source: stream, long-term
    memory, step counter and ui are as before, the capacity of the
    coderack is unchanged, the random source has only been read
    forwards, a coderack that was not empty is not empty afterwards,
    and the coderack has grown by at most one codelet per configured
    triple. *)
Theorem injection_frame
    (cls : ControllerClass) (force : bool) (s : Controller) :
  ∃ s', _AddRoutineCodelets cls force s = Returned tt s'
    ∧ same_attributes s s'
    ∧ rng_advanced s s'
    ∧ _max_capacity (coderack s') = _max_capacity (coderack s)
    ∧ (if IsEmpty (coderack s) then True else IsEmpty (coderack s') = false)
    ∧ length (_codelets (coderack s'))
      ≤ length (_codelets (coderack s))
        + length (routine_codelets_to_add cls).
Proof.
  unfold _AddRoutineCodelets.
  destruct (routine_codelets_to_add cls) as [|t rest] eqn:E.
  - exists s. split; [done|]. split; [by repeat split|]. split; [by split|].
    split; [done|]. split; [by destruct (IsEmpty (coderack s)) | cbn; lia].
  - destruct (add_routine_loop_bounds cls
                (if IsEmpty (coderack s) then true else force) (t :: rest) s)
      as (s' & Hs' & Ha & Hr & Hc & Hne & Hl).
    exists s'. split; [done|]. split; [done|]. split; [done|].
    split; [done|]. split; [|done].
    destruct (IsEmpty (coderack s)); [done | by apply Hne].
Qed.

(** X4.  On a coderack that is not empty and without [force], a triple
    is injected only if its toss succeeds: when every toss fails, the
    coderack is left as it was, and exactly one draw per configured
    triple has been read from the random source. *)
Theorem unforced_injection_respects_tosses
    (cls : ControllerClass) (s : Controller) :
  IsEmpty (coderack s) = false →
  tosses_fail (routine_codelets_to_add cls) (rng s) →
  _AddRoutineCodelets cls false s
  = Returned tt
      (set_rng (drawn (length (routine_codelets_to_add cls)) (rng s)) s).
Proof.
  intros Hne Hfail. unfold _AddRoutineCodelets. rewrite Hne.
  destruct (routine_codelets_to_add cls) as [|t rest] eqn:E.
  - cbn. by rewrite drawn_0, set_rng_same.
  - by apply add_routine_loop_failing.
Qed.


(** X6.  Scheduling follow-up work: on a controller without routine
    codelets whose coderack is empty, a codelet added with [AddCodelet]
    is the codelet the next [Step] draws and runs, and it runs with the
    coderack empty again. *)
Theorem added_codelet_runs_next
    (cls : ControllerClass) (family : Family) (urgency : Q)
    (arguments_dict : list (string * string)) (s : Controller) :
  routine_codelets_to_add cls = [] →
  IsEmpty (coderack s) = true →
  let c := {| codelet.family := family; codelet.urgency := urgency;
              args := arguments_dict |} in
  let s1 := final (AddCodelet cls family urgency arguments_dict s) in
  ∃ s3, draws cls s1 c s3
        ∧ _codelets (coderack s3) = []
        ∧ steps_taken s3 = steps_taken s + 1
        ∧ Step cls s1 = run_guarded cls c s3.
Proof.
  intros Hnil He c s1.
  assert (_codelets (coderack s1) = [c]) as Hone.
  { subst s1. unfold AddCodelet. fold c.
    destruct (coderack_AddCodelet_length cls c s) as (rest & -> & Hsub).
    apply IsEmpty_true_nil in He. rewrite He in Hsub.
    apply submseteq_nil_r in Hsub. by subst rest. }
  assert (steps_taken s1 = steps_taken s) as Hst.
  { subst s1. unfold AddCodelet. fold c.
    destruct (coderack_AddCodelet_returns cls c s) as (s' & -> & Ha & _).
    apply Ha. }
  assert (prepare cls s1 = tick s1) as Hp.
  { unfold prepare, _AddRoutineCodelets. by rewrite Hnil. }
  assert (IsEmpty (coderack (prepare cls s1)) = false) as Hne.
  { rewrite Hp, tick_coderack. unfold IsEmpty. by rewrite Hone. }
  destruct (draws_exists cls s1 Hne) as (c' & s3 & Hd & Ha & Hperm).
  rewrite Hp, tick_coderack, Hone in Hperm.
  apply Permutation_singleton_l in Hperm. simplify_eq.
  exists s3. split; [done|]. split; [done|]. split.
  - rewrite (draws_steps_taken cls s1 _ s3 Hd). lia.
  - by apply Step_draws.
Qed.

(** X7.  [RunUptoNSteps] for a number of steps that is zero or negative
    takes no step and leaves the controller as it is; and asking for
    [a + b] steps is asking for [a] steps and, if they all return, for
    [b] more. *)
Theorem RunUptoNSteps_composes (cls : ControllerClass) :
  (∀ (n : Z) (s : Controller),
     (n ≤ 0)%Z → RunUptoNSteps cls n s = Returned tt s)
  ∧ (∀ (a b : Z) (s : Controller),
       (0 ≤ a)%Z → (0 ≤ b)%Z →
       RunUptoNSteps cls (a + b) s
       = bind (RunUptoNSteps cls a) (λ _, RunUptoNSteps cls b) s).
Proof.
  split.
  - intros n s Hn. unfold RunUptoNSteps.
    by replace (Z.to_nat n) with 0 by lia.
  - intros a b s Ha Hb. unfold RunUptoNSteps.
    rewrite Z2Nat.inj_add by done. apply for_range_add.
Qed.

(** X8.  Up to the moment the drawn codelet is run, [Step] has changed
    the step counter (by one), the clock of the long-term memory (set
    to the new count; a controller without a long-term memory still has
    none), the coderack and the position of the random source, and
    nothing else: stream, ui, the nodes of the long-term memory and the
    capacity of the coderack are as before. *)
Theorem Step_prelude_frame (cls : ControllerClass) (s : Controller) :
  let touched (s' : Controller) : Prop :=
    stream s' = stream s ∧ ui s' = ui s
    ∧ steps_taken s' = steps_taken s + 1
    ∧ ltm s'
      = (λ l, {| _timesteps := steps_taken s + 1; nodes := nodes l |})
          <$> ltm s
    ∧ _max_capacity (coderack s') = _max_capacity (coderack s)
    ∧ rng_advanced s s' in
  touched (prepare cls s)
  ∧ ∀ (c : Codelet) (s3 : Controller), draws cls s c s3 → touched s3.
Proof.
  intros touched.
  assert (touched (tick s)) as Htick.
  { unfold touched, tick. cbn.
    destruct (ltm s) as [l|] eqn:E; cbn; rewrite ?E; repeat split; done. }
  assert (touched (prepare cls s)) as Hprep.
  { destruct (injection_frame_aux cls false (tick s))
      as (s' & Hs' & (H1 & H2 & H3 & H4) & Hr & Hc).
    unfold prepare. rewrite Hs'. cbn [final].
    destruct Htick as (T1 & T2 & T3 & T4 & T5 & T6).
    repeat split; try congruence.
    - destruct Hr, T6. congruence.
    - destruct Hr, T6. lia. }
  split; [done|].
  intros c s3 [Hne Hd].
  unfold coderack_GetCodelet in Hd.
  destruct (GetCodelet_nonempty (coderack (prepare cls s))
              (rng (prepare cls s)) Hne)
    as (c' & rack' & r' & Hg & _ & Hcap).
  pose proof (GetCodelet_rng (coderack (prepare cls s))
                (rng (prepare cls s)) c' rack' r' Hg) as [Ht Hcu].
  rewrite Hg in Hd. simplify_eq.
  destruct Hprep as (T1 & T2 & T3 & T4 & T5 & [T6 T7]).
  repeat split; cbn; try congruence. lia.
Qed.

(** X9.  A controller without routine codelets whose coderack is empty
    has nothing to run: [RunUptoNSteps] returns after counting its
    steps (and setting the clock of the long-term memory at each of
    them), and leaves coderack, stream, ui and random source as they
    were. *)
Theorem idle_run_only_counts (cls : ControllerClass) :
  routine_codelets_to_add cls = [] →
  ∀ (n : nat) (s : Controller),
    IsEmpty (coderack s) = true →
    RunUptoNSteps cls (Z.of_nat n) s = Returned tt (Nat.iter n tick s)
    ∧ steps_taken (Nat.iter n tick s) = steps_taken s + n
    ∧ coderack (Nat.iter n tick s) = coderack s
    ∧ stream (Nat.iter n tick s) = stream s
    ∧ ui (Nat.iter n tick s) = ui s
    ∧ rng (Nat.iter n tick s) = rng s.
Proof.
  intros Hnil n s He. split.
  - unfold RunUptoNSteps. rewrite Nat2Z.id. revert s He.
    induction n as [|n IH]; intros s He; [done|].
    cbn [for_range]. unfold bind.
    assert (prepare cls s = tick s) as Hp.
    { unfold prepare, _AddRoutineCodelets. by rewrite Hnil. }
    rewrite (Step_idle cls s) by (by rewrite Hp, tick_coderack).
    rewrite Hp, Nat.iter_succ_r. apply IH. by rewrite tick_coderack.
  - assert (∀ s0, stream (tick s0) = stream s0 ∧ ui (tick s0) = ui s0
                  ∧ rng (tick s0) = rng s0) as Htick.
    { intros s0. unfold tick. cbn. by destruct (ltm s0). }
    induction n as [|n (I1 & I2 & I3 & I4 & I5)].
    { cbn. repeat split; try done; lia. }
    rewrite !Nat.iter_succ.
    destruct (Htick (Nat.iter n tick s)) as (T1 & T2 & T3).
    rewrite tick_steps_taken, tick_coderack.
    repeat split; try congruence; lia.
Qed.

(** *** The statements at work on the sample applications *)

Lemma Controller_init_state_witness :
  ∃ s, controller.__init__ seeker blank_ltm quarters [] = Returned tt s
       ∧ _codelets (coderack s)
         = rev (codelet_of <$> routine_codelets_to_add seeker)
       ∧ rng s = quarters.
Proof.
  destruct (Controller_init_state seeker blank_ltm quarters [])
    as (s & Hs & _ & _ & _ & _ & _ & _ & Hfit).
  exists s. split; [exact Hs|]. apply Hfit. cbn. lia.
Defined.

Lemma forced_injection_ignores_probabilities_witness :
  _codelets (coderack (inject_all dozer (routine_codelets_to_add dozer) dozer0))
  = rev (codelet_of <$> routine_codelets_to_add dozer)
      ++ _codelets (coderack dozer0)
  ∧ rng (inject_all dozer (routine_codelets_to_add dozer) dozer0) = rng dozer0.
Proof.
  refine (proj2 (proj2 (forced_injection_ignores_probabilities dozer dozer0)) _).
  vm_compute. lia.
Defined.

Lemma unforced_injection_respects_tosses_witness :
  _AddRoutineCodelets dozer false dozer0
  = Returned tt (set_rng (drawn 1 (rng dozer0)) dozer0).
Proof.
  refine (unforced_injection_respects_tosses dozer dozer0 _ _).
  - reflexivity.
  - intros t n Ht. cbn in Ht. apply list_elem_of_singleton in Ht.
    subst t. reflexivity.
Defined.

Lemma added_codelet_runs_next_witness :
  ∃ s3, draws idle (final (AddCodelet idle "retry" 1 [] idle0))
          {| family := "retry"; urgency := 1; args := [] |} s3
        ∧ _codelets (coderack s3) = []
        ∧ steps_taken s3 = steps_taken idle0 + 1
        ∧ Step idle (final (AddCodelet idle "retry" 1 [] idle0))
          = run_guarded idle
              {| family := "retry"; urgency := 1; args := [] |} s3.
Proof.
  refine (added_codelet_runs_next idle "retry" 1 [] idle0 _ _);
    reflexivity.
Defined.

Lemma RunUptoNSteps_composes_witness :
  RunUptoNSteps seeker (-3) seeker0 = Returned tt seeker0
  ∧ RunUptoNSteps plodder (1 + 2) plodder0
    = bind (RunUptoNSteps plodder 1) (λ _, RunUptoNSteps plodder 2) plodder0.
Proof.
  split.
  - refine (proj1 (RunUptoNSteps_composes seeker) (-3)%Z seeker0 _). lia.
  - refine (proj2 (RunUptoNSteps_composes plodder) 1%Z 2%Z plodder0 _ _); lia.
Defined.

Lemma Step_prelude_frame_witness :
  stream seeker0_drawn = stream seeker0
  ∧ ui seeker0_drawn = ui seeker0
  ∧ steps_taken seeker0_drawn = steps_taken seeker0 + 1.
Proof.
  destruct (proj2 (Step_prelude_frame seeker seeker0)
              halt_codelet seeker0_drawn)
    as (H1 & H2 & H3 & _).
  - split; vm_compute; reflexivity.
  - exact (conj H1 (conj H2 H3)).
Defined.

Lemma idle_run_only_counts_witness :
  RunUptoNSteps idle 4 idle0 = Returned tt (Nat.iter 4 tick idle0)
  ∧ steps_taken (Nat.iter 4 tick idle0) = steps_taken idle0 + 4.
Proof.
  destruct (idle_run_only_counts idle eq_refl 4 idle0 eq_refl)
    as (H1 & H2 & _).
  exact (conj H1 H2).
Defined.

End controller_laws.

(** ** Start-up: the checks one by one, and their composition *)

Module main_more.
Import controller main main_facts main_terms.

#[local] Set Warnings "-clear-no-such-hyp".

(** *** Rules for [wp] *)

Lemma wp_ret {A} (a : A) Q E s : Q a s → wp (ret a) Q E s.
Proof. done. Qed.

Lemma wp_raise {A} (e : Exn) (Q : A → MainState → Prop) E s :
  E e s → wp (raise e) Q E s.
Proof. done. Qed.

Lemma wp_get (Q : MainState → MainState → Prop) E s : Q s s → wp get Q E s.
Proof. done. Qed.

Lemma wp_modify f (Q : unit → MainState → Prop) E s :
  Q tt (f s) → wp (modify f) Q E s.
Proof. done. Qed.

Lemma wp_bind {A B} (c : M MainState A) (k : A → M MainState B) Q E s :
  wp c (λ a s', wp (k a) Q E s') E s → wp (bind c k) Q E s.
Proof. unfold wp, bind. by destruct (c s). Qed.

Lemma wp_mono {A} (c : M MainState A) (Q Q' : A → MainState → Prop)
    (E E' : Exn → MainState → Prop) s :
  wp c Q E s →
  (∀ a s', Q a s' → Q' a s') → (∀ e s', E e s' → E' e s') →
  wp c Q' E' s.
Proof. unfold wp. destruct (c s); eauto. Qed.

Lemma wp_print line (Q : unit → MainState → Prop) E s :
  Q tt (set_stdout (stdout s ++ [line]) s) → wp (print line) Q E s.
Proof. done. Qed.

Lemma wp_sys_exit {A} code (Q : A → MainState → Prop) E s :
  E (SystemExit code) s → wp (sys_exit code) Q E s.
Proof. done. Qed.

Lemma wp_mkdir p (Q : unit → MainState → Prop) E s :
  (p ∈ existing (fs s) ∨ p ∈ unwritable (fs s) →
   E (OtherException "OSError") s) →
  (p ∉ existing (fs s) →
   Q tt (set_fs {| existing := {[ p ]} ∪ existing (fs s);
                   regular_files := regular_files (fs s);
                   home := home (fs s);
                   unwritable := unwritable (fs s) |} s)) →
  wp (mkdir p) Q E s.
Proof.
  intros HE HQ. unfold wp, mkdir.
  destruct (bool_decide (p ∈ existing (fs s))) eqn:E1; cbn.
  { apply bool_decide_eq_true in E1. auto. }
  destruct (bool_decide (p ∈ unwritable (fs s))) eqn:E2; cbn.
  { apply bool_decide_eq_true in E2. auto. }
  apply bool_decide_eq_false in E1. auto.
Qed.

Lemma wp_path_exists p s : path_exists p s = true ↔ p ∈ existing (fs s).
Proof. unfold path_exists. apply bool_decide_eq_true. Qed.

Lemma wp_path_missing p s : path_exists p s = false ↔ p ∉ existing (fs s).
Proof. unfold path_exists. apply bool_decide_eq_false. Qed.

Ltac wp_step :=
  lazymatch goal with
  | |- wp (bind _ _) _ _ _ => apply wp_bind
  | |- wp get _ _ _ => apply wp_get
  | |- wp (ret _) _ _ _ => apply wp_ret
  | |- wp (print _) _ _ _ => apply wp_print
  | |- wp (sys_exit _) _ _ _ => apply wp_sys_exit
  | |- wp (raise _) _ _ _ => apply wp_raise
  | |- wp (modify _) _ _ _ => apply wp_modify
  | |- wp (mkdir _) _ _ _ => apply wp_mkdir; [intros _ | intros ?]
  | |- wp (if negb ?b then _ else _) _ _ _ =>
      let H := fresh "Hb" in destruct b eqn:H; cbn [negb]
  | |- wp (if ?b then _ else _) _ _ _ =>
      let H := fresh "Hb" in destruct b eqn:H
  end.

Ltac wp_steps := repeat wp_step.

Lemma fs_grows_refl s : fs_grows s s.
Proof. by repeat split. Qed.

Lemma fs_grows_trans s1 s2 s3 :
  fs_grows s1 s2 → fs_grows s2 s3 → fs_grows s1 s3.
Proof.
  intros (H1&H2&H3&H4) (G1&G2&G3&G4).
  split; [by etrans|]. repeat split; congruence.
Qed.

Lemma same_object_refl s : same_object s s.
Proof. by repeat split. Qed.

Lemma same_object_trans s1 s2 s3 :
  same_object s1 s2 → same_object s2 s3 → same_object s1 s3.
Proof. intros (?&?&?) (?&?&?). repeat split; congruence. Qed.

Lemma same_request_refl f : same_request f f.
Proof. by repeat split. Qed.

Lemma same_request_trans f1 f2 f3 :
  same_request f1 f2 → same_request f2 f3 → same_request f1 f3.
Proof. intros (?&?&?&?&?) (?&?&?&?&?). repeat split; congruence. Qed.

Lemma VerifyPersistentDirectoryPath_wp cls s :
  wp (VerifyPersistentDirectoryPath cls)
     (λ _, persistent_ok cls s) (persistent_failed s) s.
Proof.
  unfold VerifyPersistentDirectoryPath, persistent_ok, persistent_failed,
    persistent_choice.
  wp_steps; rewrite ?wp_path_exists, ?wp_path_missing in *; cbn in *;
    rewrite ?Hb in *.
  all: unfold fs_grows, same_object, same_request; cbn.
  all: try (repeat split; try done; try set_solver; fail).
  all: try (split; [done|]; split; [repeat split; try done; set_solver|];
            split; [done|]; by right).
  all: try (split; [done|]; split; [repeat split; try done; set_solver|];
            split; [done|]; left; repeat split; try done;
            by apply wp_path_missing).
Qed.


Lemma truthy_Some (o : option string) : truthy o = true → o = Some (the o).
Proof. by destruct o. Qed.

Lemma VerifyLTMPath_wp cls s :
  wp (VerifyLTMPath cls)
     (λ _, subdir_ok cls ltm_directory stats_directory "ltm" s)
     (subdir_failed ltm_directory s) s.
Proof.
  unfold VerifyLTMPath, subdir_ok, subdir_failed.
  wp_step. wp_step. wp_step.
  - (* the directory was given by flag *)
    wp_step.
    + wp_steps. apply wp_path_exists in Hb0. done.
    + wp_steps. apply wp_path_missing in Hb0.
      split; [by repeat split|]. split; [by repeat split|].
      split; [by repeat split|]. by repeat split.
  - wp_step.
    eapply wp_mono; [apply VerifyPersistentDirectoryPath_wp| |].
    2:{ intros e s' (Hf & Hg & Ho & He). rewrite Hf.
        split; [done|]. split; [done|]. split; [apply same_request_refl|].
        destruct He as [[-> _] | ->]; auto. }
    intros [] s1 (Hpd & Hin & Hg & Ho & Hr & Hl & Hst).
    wp_step. wp_step. rewrite Hpd. cbn [the default from_option id].
    wp_steps; rewrite ?wp_path_exists, ?wp_path_missing in *; cbn in *.
    all: destruct Hg as (G1 & G2 & G3 & G4), Ho as (O1 & O2 & O3),
           Hr as (R1 & R2 & R3 & R4 & R5).
    all: unfold fs_grows, same_object, same_request; cbn.
    all: repeat split; try done; try congruence; try set_solver.
    all: try (by right).
Qed.

Lemma VerifyStatsPath_wp cls s :
  wp (VerifyStatsPath cls)
     (λ _, subdir_ok cls stats_directory ltm_directory "stats" s)
     (subdir_failed stats_directory s) s.
Proof.
  unfold VerifyStatsPath, subdir_ok, subdir_failed.
  wp_step. wp_step. wp_step.
  - (* the directory was given by flag *)
    wp_step.
    + wp_steps. apply wp_path_exists in Hb0. done.
    + wp_steps. apply wp_path_missing in Hb0.
      split; [by repeat split|]. split; [by repeat split|].
      split; [by repeat split|]. by repeat split.
  - wp_step.
    eapply wp_mono; [apply VerifyPersistentDirectoryPath_wp| |].
    2:{ intros e s' (Hf & Hg & Ho & He). rewrite Hf.
        split; [done|]. split; [done|]. split; [apply same_request_refl|].
        destruct He as [[-> _] | ->]; auto. }
    intros [] s1 (Hpd & Hin & Hg & Ho & Hr & Hl & Hst).
    wp_step. wp_step. rewrite Hpd. cbn [the default from_option id].
    wp_steps; rewrite ?wp_path_exists, ?wp_path_missing in *; cbn in *.
    all: destruct Hg as (G1 & G2 & G3 & G4), Ho as (O1 & O2 & O3),
           Hr as (R1 & R2 & R3 & R4 & R5).
    all: unfold fs_grows, same_object, same_request; cbn.
    all: repeat split; try done; try congruence; try set_solver.
    all: try (by right).
Qed.


(** What [VerifyStoppingConditionSanity] establishes. *)
Lemma VerifyStoppingConditionSanity_wp cls s :
  wp (VerifyStoppingConditionSanity cls)
     (λ _ s',
        (if String.eqb (run_mode_flag (flags s)) "gui"
         then s' = s
         else s' = set_stopping_condition_fn (installed_fn (flags s)) s)
        ∧ condition_settled cls s')
     (λ e s',
        e = SystemExit 1 ∧ flags s' = flags s ∧ fs s' = fs s
        ∧ same_object s s'
        ∧ truthy (stopping_condition (flags s)) = true
        ∧ (String.eqb (run_mode_flag (flags s)) "gui" = true
           ∨ unknown_stopping_condition cls (flags s)))
     s.
Proof.
  unfold VerifyStoppingConditionSanity, condition_settled, installed_fn,
    unknown_stopping_condition.
  wp_step. wp_step. cbn zeta.
  destruct (String.eqb (run_mode_flag (flags s)) "gui") eqn:Hgui.
  - wp_steps.
    + repeat split; try done. by left.
    + rewrite Hgui. done.
  - wp_steps; cbn; rewrite ?Hgui.
    + (* a registered name *)
      split; [done|]. rewrite Hb. split; [done|].
      intros (_ & _ & Hname). congruence.
    + (* a name that is not registered *)
      apply andb_true_iff in Hb as [Ht Hn]. apply negb_true_iff in Hn.
      repeat split; try done. right. done.
    + (* no name, or the word None *)
      split; [done|]. rewrite Hb. split; [done|].
      intros (Ht & Hn & _). rewrite Ht, Hn in Hb. done.
Qed.

Lemma wp_construct_run_mode env rm (Q : RunMode → MainState → Prop) E s :
  (run_mode_init env rm = None → Q rm s) →
  (∀ e, run_mode_init env rm = Some e → E e s) →
  wp (construct_run_mode env rm) Q E s.
Proof.
  intros HQ HE. unfold wp, construct_run_mode.
  destruct (run_mode_init env rm) as [e|]; cbn; auto.
Qed.

Lemma wp_read_input_spec env file (Q : list string → MainState → Prop) E s :
  (∀ l, ReadFile env file = inr l → Q l s) →
  (∀ e, ReadFile env file = inl e → E e s) →
  wp (read_input_spec env file) Q E s.
Proof.
  intros HQ HE. unfold wp, read_input_spec.
  destruct (ReadFile env file) as [e|l]; cbn; auto.
Qed.

(** What [CreateRunModeInstance] establishes. *)
Lemma CreateRunModeInstance_wp cls env s :
  wp (CreateRunModeInstance cls env)
     (λ rm s',
        built_for env s rm ∧ flags s' = flags s ∧ fs s' = fs s
        ∧ same_object s s')
     (λ e s',
        flags s' = flags s ∧ fs s' = fs s ∧ same_object s s'
        ∧ creation_failed cls env s e)
     s.
Proof.
  unfold CreateRunModeInstance, built_for, creation_failed, requested.
  wp_step. wp_step. cbn zeta.
  destruct (String.eqb (run_mode_flag (flags s)) "gui") eqn:Hgui.
  { apply String.eqb_eq in Hgui. apply wp_construct_run_mode.
    - intros Hi. repeat split; try done. by left.
    - intros e Hi. repeat split; try done. left. exists RunModeGUI.
      split; [by left | done]. }
  destruct (String.eqb (run_mode_flag (flags s)) "single") eqn:Hsingle.
  { apply String.eqb_eq in Hsingle. apply wp_construct_run_mode.
    - intros Hi. repeat split; try done. right. by left.
    - intros e Hi. repeat split; try done. left.
      exists (RunModeSingle (stopping_condition_fn s)).
      split; [right; by left | done]. }
  apply String.eqb_neq in Hgui, Hsingle.
  wp_step. wp_step.
  2:{ (* no input specification is named *)
      wp_steps. repeat split; try done. right.
      split; [done|]. split; [done|]. left. done. }
  wp_step. wp_step. wp_step.
  2:{ (* no input reader *)
      wp_steps. repeat split; try done. right.
      split; [done|]. split; [done|]. right. left. done. }
  wp_step. wp_step. apply wp_read_input_spec.
  2:{ intros e He. repeat split; try done. right.
      split; [done|]. split; [done|]. right. right. left. done. }
  intros l Hl. wp_step. wp_step.
  destruct (String.eqb (run_mode_flag (flags s)) "batch") eqn:Hbatch.
  { apply String.eqb_eq in Hbatch. apply wp_construct_run_mode.
    - intros Hi. repeat split; try done. right. right. left.
      split; [done|]. split; [by exists l | done].
    - intros e Hi. repeat split; try done. left. exists (RunModeBatch l).
      split; [|done]. right. right. left.
      split; [done|]. split; [by exists l | done]. }
  destruct (String.eqb (run_mode_flag (flags s)) "sxs") eqn:Hsxs.
  { apply String.eqb_eq in Hsxs. apply wp_construct_run_mode.
    - intros Hi. repeat split; try done. right. right. right.
      split; [done|]. split; [by exists l | done].
    - intros e Hi. repeat split; try done. left. exists (RunModeSxS l).
      split; [|done]. right. right. right.
      split; [done|]. split; [by exists l | done]. }
  apply String.eqb_neq in Hbatch, Hsxs.
  wp_steps. repeat split; try done. right.
  split; [done|]. split; [done|]. right. right. right.
  split; [done|]. split; [done|]. split; [done|].
  split; [by exists l | set_solver].
Qed.

(** *** Carrying the established facts along *)

Lemma wp_any {A} (c : M MainState A) (Q : A → MainState → Prop) E s :
  (∀ a s', Q a s') → (∀ e s', E e s') → wp c Q E s.
Proof. intros HQ HE. unfold wp. destruct (c s); auto. Qed.

Lemma persistent_ok_ready cls s s' :
  persistent_ok cls s s' →
  directory_ready (persistent_directory (flags s')) s'.
Proof. intros (Hpd & Hin & _). by eexists. Qed.

Lemma directory_ready_grows d s s' :
  directory_ready d s → fs_grows s s' → directory_ready d s'.
Proof. intros (p & -> & Hin) (Hsub & _). exists p. split; [done|]. set_solver. Qed.

Lemma subdir_ok_ready cls which other leaf s s' :
  subdir_ok cls which other leaf s s' →
  directory_ready (persistent_directory (flags s)) s →
  directory_ready (persistent_directory (flags s')) s'
  ∧ directory_ready (which (flags s')) s'
  ∧ (directory_ready (other (flags s)) s →
     directory_ready (other (flags s')) s')
  ∧ same_request (flags s) (flags s') ∧ same_object s s'.
Proof.
  unfold subdir_ok. intros Hok Hpd.
  destruct (truthy (which (flags s))) eqn:Ht.
  - destruct Hok as [-> Hin]. split; [done|]. split.
    + exists (the (which (flags s))). split; [by apply truthy_Some | done].
    + split; [done|]. split; [apply same_request_refl | apply same_object_refl].
  - destruct Hok as (Hw & Hwin & Hp & Hpin & Ho & Hg & Hobj & Hreq).
    split; [by eexists|]. split; [by eexists|]. split; [|done].
    intros Hother. rewrite Ho. by eapply directory_ready_grows.
Qed.

Lemma condition_settled_stable cls s s' :
  condition_settled cls s →
  same_request (flags s) (flags s') →
  stopping_condition_fn s' = stopping_condition_fn s →
  condition_settled cls s'.
Proof.
  unfold condition_settled, installed_fn, unknown_stopping_condition.
  intros Hc (R1 & R2 & _) O2. by rewrite R1, R2, O2.
Qed.

Lemma built_for_stable env s s' rm :
  built_for env s rm → flags s' = flags s →
  stopping_condition_fn s' = stopping_condition_fn s →
  built_for env s' rm.
Proof. unfold built_for, requested. intros Hb Hf Hfn. by rewrite Hf, Hfn. Qed.

Ltac wp_call :=
  lazymatch goal with
  | |- wp (VerifyStoppingConditionSanity _) _ _ _ =>
      eapply wp_mono; [apply VerifyStoppingConditionSanity_wp | |]
  | |- wp (VerifyPersistentDirectoryPath _) _ _ _ =>
      eapply wp_mono; [apply VerifyPersistentDirectoryPath_wp | |]
  | |- wp (VerifyLTMPath _) _ _ _ =>
      eapply wp_mono; [apply VerifyLTMPath_wp | |]
  | |- wp (VerifyStatsPath _) _ _ _ =>
      eapply wp_mono; [apply VerifyStatsPath_wp | |]
  | |- wp (CreateRunModeInstance _ _) _ _ _ =>
      eapply wp_mono; [apply CreateRunModeInstance_wp | |]
  | |- wp (match ?o with Some _ => _ | None => _ end) _ _ _ =>
      let H := fresh "Ho" in destruct o eqn:H
  | _ => wp_step
  end.

Lemma ready_after_checks cls env s1' s2 s3 s4 s5 rm :
  condition_settled cls s1' →
  persistent_ok cls s1' s2 →
  subdir_ok cls ltm_directory stats_directory "ltm" s2 s3 →
  subdir_ok cls stats_directory ltm_directory "stats" s3 s4 →
  built_for env s4 rm → flags s5 = flags s4 → fs s5 = fs s4 →
  same_object s4 s5 →
  ready_to_run cls env (set_run_mode (Some rm) s5).
Proof.
  intros Hc Hp Hl Hs Hb Hf Hfs Ho.
  pose proof (persistent_ok_ready _ _ _ Hp) as Hpd2.
  destruct Hp as (_ & _ & _ & Hobj2 & Hreq2 & _).
  destruct (subdir_ok_ready _ _ _ _ _ _ Hl Hpd2)
    as (Hpd3 & Hltm3 & _ & Hreq3 & Hobj3).
  destruct (subdir_ok_ready _ _ _ _ _ _ Hs Hpd3)
    as (Hpd4 & Hst4 & Hltm4 & Hreq4 & Hobj4).
  specialize (Hltm4 Hltm3).
  assert (condition_settled cls s4) as Hc4.
  { eapply condition_settled_stable; [| exact Hreq4 | apply Hobj4].
    eapply condition_settled_stable; [| exact Hreq3 | apply Hobj3].
    eapply condition_settled_stable; [exact Hc | exact Hreq2 | apply Hobj2]. }
  destruct Ho as (O1 & O2 & O3).
  assert (∀ d, directory_ready d s4 →
               directory_ready d (set_run_mode (Some rm) s5)) as Hdir.
  { intros d (p & -> & Hin). exists p. split; [done|]. cbn. by rewrite Hfs. }
  exists rm. split; [done|]. split.
  { eapply built_for_stable; [exact Hb | by cbn | by cbn]. }
  split.
  { eapply condition_settled_stable; [exact Hc4 | |].
    - cbn. rewrite Hf. apply same_request_refl.
    - done. }
  cbn [flags set_run_mode]. rewrite Hf. auto.
Qed.

Lemma ProcessFlags_wp cls env s :
  wp (ProcessFlags cls env) (λ _, ready_to_run cls env) (λ _ _, True) s.
Proof.
  unfold ProcessFlags.
  repeat wp_call; try done.
  all: apply wp_any; [intros [] sh | done].
  all: repeat wp_call; try done.
  all: intros [] s1' [Hs1 Hc].
  all: repeat wp_call; try done.
  all: intros [] s2 Hp.
  all: repeat wp_call; try done.
  all: intros [] s3 Hl.
  all: repeat wp_call; try done.
  all: intros [] s4 Hst.
  all: repeat wp_call; try done.
  all: intros rm s5 (Hbuilt & Hfl & Hfs & Hobj).
  all: repeat wp_call.
  all: by eapply (ready_after_checks cls env s1').
Qed.


(** *** [run_mode] is written last *)

Lemma leaves_bind {A B} (c : M MainState A) (k : A → M MainState B) :
  leaves_run_mode c → (∀ a, leaves_run_mode (k a)) →
  leaves_run_mode (bind c k).
Proof.
  intros Hc Hk s. unfold bind. specialize (Hc s).
  destruct (c s) as [a s1|e s1]; cbn in *; [|done].
  by rewrite Hk.
Qed.

Lemma leaves_ret {A} (a : A) : leaves_run_mode (@ret MainState A a).
Proof. done. Qed.

Lemma leaves_raise {A} (e : Exn) : leaves_run_mode (@raise MainState A e).
Proof. done. Qed.

Lemma leaves_sys_exit {A} (code : Z) : leaves_run_mode (@sys_exit A code).
Proof. done. Qed.

Lemma leaves_get : leaves_run_mode (@get MainState).
Proof. done. Qed.

Lemma leaves_print line : leaves_run_mode (print line).
Proof. done. Qed.

Lemma leaves_mkdir p : leaves_run_mode (mkdir p).
Proof.
  intros s. unfold mkdir.
  by destruct (bool_decide _ || bool_decide _).
Qed.

Lemma leaves_modify f :
  (∀ s, run_mode (f s) = run_mode s) → leaves_run_mode (modify f).
Proof. intros Hf s. apply Hf. Qed.

Ltac leaves :=
  repeat first
    [ apply leaves_bind; [|intros ?]
    | apply leaves_ret | apply leaves_raise | apply leaves_sys_exit
    | apply leaves_get | apply leaves_print | apply leaves_mkdir
    | apply leaves_modify; done
    | lazymatch goal with
      | |- leaves_run_mode (if ?b then _ else _) => destruct b
      | |- leaves_run_mode (match ?o with Some _ => _ | None => _ end) =>
          destruct o
      end ].

Lemma leaves_VerifyStoppingConditionSanity cls :
  leaves_run_mode (VerifyStoppingConditionSanity cls).
Proof. unfold VerifyStoppingConditionSanity. leaves. Qed.

Lemma leaves_VerifyPersistentDirectoryPath cls :
  leaves_run_mode (VerifyPersistentDirectoryPath cls).
Proof. unfold VerifyPersistentDirectoryPath. leaves. Qed.

Lemma leaves_VerifyLTMPath cls : leaves_run_mode (VerifyLTMPath cls).
Proof.
  unfold VerifyLTMPath. leaves.
  all: apply leaves_bind;
    [apply leaves_VerifyPersistentDirectoryPath | intros ?]; leaves.
Qed.

Lemma leaves_VerifyStatsPath cls : leaves_run_mode (VerifyStatsPath cls).
Proof.
  unfold VerifyStatsPath. leaves.
  all: apply leaves_bind;
    [apply leaves_VerifyPersistentDirectoryPath | intros ?]; leaves.
Qed.

Lemma leaves_construct_run_mode env rm :
  leaves_run_mode (construct_run_mode env rm).
Proof.
  intros s. unfold construct_run_mode. by destruct (run_mode_init env rm).
Qed.

Lemma leaves_read_input_spec env file :
  leaves_run_mode (read_input_spec env file).
Proof.
  intros s. unfold read_input_spec. by destruct (ReadFile env file).
Qed.

Lemma leaves_CreateRunModeInstance cls env :
  leaves_run_mode (CreateRunModeInstance cls env).
Proof.
  unfold CreateRunModeInstance. leaves.
  all: first [apply leaves_construct_run_mode | apply leaves_read_input_spec].
Qed.

Lemma raises_before_bind {A B} (c : M MainState A) (k : A → M MainState B) :
  leaves_run_mode c → (∀ a, raises_before_run_mode (k a)) →
  raises_before_run_mode (bind c k).
Proof.
  intros Hc Hk s e s' Hb. unfold bind in Hb. specialize (Hc s).
  destruct (c s) as [a s1|e1 s1]; cbn in Hc.
  - rewrite <- Hc. by eapply Hk.
  - by simplify_eq.
Qed.

Lemma raises_before_modify f : raises_before_run_mode (modify f).
Proof. by intros s e s' H. Qed.

Lemma raises_before_ProcessFlags cls env :
  leaves_run_mode (ProcessCustomFlags cls) →
  raises_before_run_mode (ProcessFlags cls env).
Proof.
  intros Hhook. unfold ProcessFlags.
  apply raises_before_bind; [apply leaves_get | intros s0].
  apply raises_before_bind; [leaves | intros _].
  apply raises_before_bind; [leaves | intros _].
  apply raises_before_bind; [done | intros _].
  apply raises_before_bind; [apply leaves_get | intros s1].
  apply raises_before_bind; [leaves | intros _].
  apply raises_before_bind;
    [apply leaves_VerifyStoppingConditionSanity | intros _].
  apply raises_before_bind;
    [apply leaves_VerifyPersistentDirectoryPath | intros _].
  apply raises_before_bind; [apply leaves_VerifyLTMPath | intros _].
  apply raises_before_bind; [apply leaves_VerifyStatsPath | intros _].
  apply raises_before_bind; [apply leaves_CreateRunModeInstance | intros rm].
  apply raises_before_modify.
Qed.

End main_more.

Module startup_laws.
Import controller main main_facts main_terms main_more samples samples_more.

Lemma returned_final {St} (o : Outcome St unit) :
  returns o = true → o = Returned tt (final o).
Proof. by destruct o as [[] ?|? ?]. Qed.

Lemma path_join_nonempty (a b : string) : a ≠ "" → path_join a b ≠ "".
Proof.
  intros Ha. unfold path_join.
  destruct (String.prefix "/" b) eqn:Hp.
  { intros ->. done. }
  destruct (String.eqb a "") eqn:He.
  { by apply String.eqb_eq in He. }
  destruct a as [|ch a]; [done|].
  by destruct (String.eqb _ "/").
Qed.

Lemma path_join_nonempty_r (a b : string) : b ≠ "" → path_join a b ≠ "".
Proof.
  intros Hb. unfold path_join.
  destruct (String.prefix "/" b); [done|].
  destruct (String.eqb a "") eqn:He; [done|].
  apply String.eqb_neq in He.
  destruct a as [|ch a]; [done|].
  by destruct (String.eqb _ "/").
Qed.

Lemma persistent_choice_truthy cls s :
  truthy (Some (persistent_choice cls s)) = true.
Proof.
  unfold persistent_choice.
  destruct (truthy (persistent_directory (flags s))) eqn:Ht.
  - destruct (persistent_directory (flags s)); done.
  - unfold truthy. apply negb_true_iff, String.eqb_neq.
    apply path_join_nonempty. by apply path_join_nonempty_r.
Qed.

(** X10.  The check of the stopping condition changes nothing in GUI
    mode and nothing but [stopping_condition_fn] otherwise: there it
    installs the function registered under the name given, or the empty
    string when no name or the word None was given.  It fails only by
    exit status 1, only when a name was given, and then either the mode
    is GUI (where even a registered name is refused) or the name is
    unknown; a failure changes nothing but the output. *)
Theorem stopping_condition_check (cls : MainClass) (s : MainState) :
  match VerifyStoppingConditionSanity cls s with
  | Returned _ s' =>
      (if String.eqb (run_mode_flag (flags s)) "gui"
       then s' = s
       else s' = set_stopping_condition_fn (installed_fn (flags s)) s)
      ∧ condition_settled cls s'
  | Raised e s' =>
      e = SystemExit 1 ∧ flags s' = flags s ∧ fs s' = fs s
      ∧ same_object s s'
      ∧ truthy (stopping_condition (flags s)) = true
      ∧ (String.eqb (run_mode_flag (flags s)) "gui" = true
         ∨ unknown_stopping_condition cls (flags s))
  end.
Proof. exact (VerifyStoppingConditionSanity_wp cls s). Qed.

(** X11.  When [VerifyPersistentDirectoryPath] returns, the flag
    [persistent_directory] names the directory given by flag or, without
    one, the application's directory under [.pyseqsee] in the home
    directory; that directory exists; nothing was removed from the file
    system and nothing else of the flags or of the object was changed.
    When it raises, the flags are as before, and either the home
    directory does not exist (exit status 1, nothing created) or
    [os.mkdir] was refused. *)
Theorem persistent_directory_outcome (cls : MainClass) (s : MainState) :
  match VerifyPersistentDirectoryPath cls s with
  | Returned _ s' => persistent_ok cls s s'
  | Raised e s' => persistent_failed s e s'
  end.
Proof. exact (VerifyPersistentDirectoryPath_wp cls s). Qed.

(** X12.  [VerifyPersistentDirectoryPath] is idempotent: called again
    on the state a successful call has left, it returns without
    changing anything (which is what [VerifyLTMPath] and
    [VerifyStatsPath] rely on when they call it once more). *)
Theorem persistent_directory_idempotent
    (cls : MainClass) (s s1 : MainState) :
  VerifyPersistentDirectoryPath cls s = Returned tt s1 →
  VerifyPersistentDirectoryPath cls s1 = Returned tt s1.
Proof.
  intros Hs.
  pose proof (VerifyPersistentDirectoryPath_wp cls s) as Hwp.
  unfold wp in Hwp. rewrite Hs in Hwp.
  destruct Hwp as (Hpd & Hin & _).
  pose proof (persistent_choice_truthy cls s) as Ht.
  unfold VerifyPersistentDirectoryPath, bind, get.
  rewrite Hpd, Ht. cbn [negb the default from_option id ret].
  unfold path_exists. rewrite bool_decide_eq_true_2 by done.
  cbn [negb ret]. unfold modify. f_equal.
  destruct s1 as [rm fn [f1 f2 f3 f4 f5 f6 f7 f8] ll fss out].
  cbn in *. by subst.
Qed.

(** X13.  [VerifyLTMPath] never creates a directory that was given by
    flag: if it exists the call returns and nothing at all has changed,
    if not it exits with status 1 and flags and file system are
    untouched.  Without the flag, a successful call leaves the flag
    naming the subdirectory [ltm] of the persistent directory, both
    exist, and the other flags are as before. *)
Theorem ltm_path_outcome (cls : MainClass) (s : MainState) :
  match VerifyLTMPath cls s with
  | Returned _ s' => subdir_ok cls ltm_directory stats_directory "ltm" s s'
  | Raised e s' => subdir_failed ltm_directory s e s'
  end.
Proof. exact (VerifyLTMPath_wp cls s). Qed.

(** X14.  [VerifyStatsPath] does for the flag [stats_directory] and the
    subdirectory [stats] what [VerifyLTMPath] does for the long-term
    memories: a directory given by flag is checked and never created;
    otherwise the subdirectory of the persistent directory is made
    ready. *)
Theorem stats_path_outcome (cls : MainClass) (s : MainState) :
  match VerifyStatsPath cls s with
  | Returned _ s' => subdir_ok cls stats_directory ltm_directory "stats" s s'
  | Raised e s' => subdir_failed stats_directory s e s'
  end.
Proof. exact (VerifyStatsPath_wp cls s). Qed.

(** X15.  [CreateRunModeInstance] touches neither flags nor file system
    nor the object.  When it returns, the run mode is the one named by
    the flag: GUI, single (carrying the stopping condition function of
    the object), batch or sxs (carrying the input specification the
    reader has read from the file the flags name), and its constructor
    has returned.  When it raises, the exception is the one raised by
    the constructor of the requested run mode, or the mode is neither
    GUI nor single and: no input specification is named (exit status
    1), the class has no input reader ([TypeError]), the reader raised
    it, or the file was read and the mode is not batch or sxs either
    (exit status 1). *)
Theorem run_mode_creation_outcome
    (cls : MainClass) (env : Env) (s : MainState) :
  match CreateRunModeInstance cls env s with
  | Returned rm s' =>
      built_for env s rm ∧ flags s' = flags s ∧ fs s' = fs s
      ∧ same_object s s'
  | Raised e s' =>
      flags s' = flags s ∧ fs s' = fs s ∧ same_object s s'
      ∧ creation_failed cls env s e
  end.
Proof. exact (CreateRunModeInstance_wp cls env s). Qed.

Lemma wp_plain_hook cls (Q : unit → MainState → Prop) E s :
  plain_custom_flags cls → Q tt s → wp (ProcessCustomFlags cls) Q E s.
Proof. intros Hp HQ. unfold wp. by rewrite Hp. Qed.

(** X16.  [ProcessFlags] fails fast on a bad request.  A log level the
    logging module does not know ends it with exit status 1 before the
    application's own flag processing is run and before anything is
    created.  With the base class's flag processing, an input
    specification that does not exist or is not a file ends it with
    exit status 1 as well, with flags, file system and run mode as they
    were: no directory is created for a run that cannot start. *)
Theorem ProcessFlags_early_exits
    (cls : MainClass) (env : Env) (s : MainState) :
  (truthy (debug_config (flags s)) = false
   ∨ fileConfig_ok env (the (debug_config (flags s))) = true) →
  (truthy (debug (flags s)) = true →
   numeric_level env (the (debug (flags s))) = None →
   ProcessFlags cls env s
   = Raised (SystemExit 1)
       (set_stdout
          (stdout s ++ ["Invalid log level: " +:+ the (debug (flags s))]) s))
  ∧ (plain_custom_flags cls → input_spec_unusable s →
     ∃ s', ProcessFlags cls env s = Raised (SystemExit 1) s'
           ∧ flags s' = flags s ∧ fs s' = fs s
           ∧ run_mode s' = run_mode s).
Proof.
  intros Hcfg. split.
  - intros Hd Hn. unfold ProcessFlags, bind, get.
    assert ((if truthy (debug_config (flags s))
             then if fileConfig_ok env (the (debug_config (flags s)))
                  then ret tt else raise (OtherException "logging.config")
             else ret tt) s = Returned tt s) as ->.
    { destruct Hcfg as [-> | Hok]; [done|].
      destruct (truthy (debug_config (flags s))); [by rewrite Hok | done]. }
    by rewrite Hd, Hn.
  - intros Hplain (Ht & Hbad).
    assert (wp (ProcessFlags cls env) (λ _ _, False)
              (λ e s', e = SystemExit 1 ∧ flags s' = flags s
                       ∧ fs s' = fs s ∧ run_mode s' = run_mode s) s) as Hwp.
    { unfold ProcessFlags.
      repeat wp_call; try done.
      all: try (destruct Hcfg; congruence).
      all: apply wp_plain_hook; [done|].
      all: repeat wp_call; try done.
      all: cbn in *; try congruence.
      all: unfold path_exists, path_isfile in *; cbn in *.
      all: try (apply bool_decide_eq_true in Hb1).
      all: try (apply bool_decide_eq_true in Hb2).
      all: try (apply bool_decide_eq_true in Hb3).
      all: try (apply bool_decide_eq_true in Hb4).
      all: tauto. }
    unfold wp in Hwp.
    destruct (ProcessFlags cls env s) as [a s'|e s']; [done|].
    destruct Hwp as (-> & ? & ? & ?). by exists s'.
Qed.

(** X17.  When the construction of [Main] returns, the application has
    a name and everything the run needs is in place: the run mode the
    flags ask for has been created (in single mode with the stopping
    condition function installed by the check), the stopping condition
    is settled, and the persistent, long-term-memory and statistics
    directories named by the flags exist.  [Run] then hands over to
    that run mode. *)
Theorem Main_init_ready
    (cls : MainClass) (env : Env) (unprocessed_flags : Flags)
    (s0 s' : MainState) :
  __init__ cls env unprocessed_flags s0 = Returned tt s' →
  truthy (application_name cls) = true
  ∧ ready_to_run cls env s'
  ∧ ∃ rm, run_mode s' = Some rm
          ∧ ∀ run_mode_Run : RunMode → M MainState unit,
              Run run_mode_Run s' = run_mode_Run rm s'.
Proof.
  intros Hinit.
  assert (wp (__init__ cls env unprocessed_flags)
            (λ _ s', truthy (application_name cls) = true
                     ∧ ready_to_run cls env s')
            (λ _ _, True) s0) as Hwp.
  { unfold __init__. repeat wp_call; try done.
    eapply wp_mono; [apply ProcessFlags_wp | | done].
    intros [] s1 Hr. done. }
  unfold wp in Hwp. rewrite Hinit in Hwp. destruct Hwp as [Hname Hready].
  split; [done|]. split; [done|].
  destruct Hready as (rm & Hrm & _). exists rm. split; [done|].
  intros f. unfold Run. by rewrite Hrm.
Qed.

(** X18.  The run mode is the last thing the construction of [Main]
    sets: whenever the construction fails, for whatever reason, there
    is no run mode (as long as the application's own flag processing
    does not make one). *)
Theorem failed_construction_has_no_run_mode
    (cls : MainClass) (env : Env) (unprocessed_flags : Flags)
    (fs0 : FileSystem) (out0 : list string) (e : Exn) (s' : MainState) :
  leaves_run_mode (ProcessCustomFlags cls) →
  __init__ cls env unprocessed_flags (fresh unprocessed_flags fs0 out0)
  = Raised e s' →
  run_mode s' = None.
Proof.
  intros Hhook Hinit.
  unfold __init__ in Hinit. unfold bind at 1 in Hinit.
  destruct (negb (truthy (application_name cls))).
  { cbn in Hinit. by simplify_eq. }
  cbn in Hinit.
  by rewrite (raises_before_ProcessFlags cls env Hhook _ _ _ Hinit).
Qed.

(** *** The statements at work on the sample applications *)

Lemma persistent_directory_idempotent_witness :
  VerifyPersistentDirectoryPath seqsee
    (final (VerifyPersistentDirectoryPath seqsee seqsee_start))
  = Returned tt (final (VerifyPersistentDirectoryPath seqsee seqsee_start)).
Proof.
  refine (persistent_directory_idempotent seqsee seqsee_start _ _).
  apply returned_final. vm_compute. reflexivity.
Defined.

Lemma ProcessFlags_early_exits_witness :
  ProcessFlags seqsee strict_env (fresh chatty_run home_only [])
  = Raised (SystemExit 1)
      (set_stdout ["Invalid log level: loud"] (fresh chatty_run home_only []))
  ∧ ∃ s', ProcessFlags seqsee plain_env (fresh batch_run home_only [])
          = Raised (SystemExit 1) s'
          ∧ fs s' = home_only.
Proof.
  split.
  - refine (proj1 (ProcessFlags_early_exits seqsee strict_env
                     (fresh chatty_run home_only []) _) _ _).
    + left. reflexivity.
    + reflexivity.
    + reflexivity.
  - destruct (proj2 (ProcessFlags_early_exits seqsee plain_env
                       (fresh batch_run home_only []) (or_introl eq_refl)))
      as (s' & Hs' & _ & Hfs & _).
    + intros s. reflexivity.
    + split; [reflexivity|]. left. cbn. set_solver.
    + exists s'. exact (conj Hs' Hfs).
Defined.

Lemma Main_init_ready_witness :
  ready_to_run seqsee plain_env
    (final (__init__ seqsee plain_env (single_run (Some "AnswerFound"))
              seqsee_start)).
Proof.
  refine (proj1 (proj2 (Main_init_ready seqsee plain_env
                          (single_run (Some "AnswerFound")) seqsee_start _ _))).
  apply returned_final. vm_compute. reflexivity.
Defined.

Lemma failed_construction_has_no_run_mode_witness :
  match __init__ seqsee plain_env (single_run (Some "Bogus"))
          (fresh (single_run (Some "Bogus")) home_only []) with
  | Raised _ s' => run_mode s' = None
  | Returned _ _ => False
  end.
Proof.
  destruct (__init__ seqsee plain_env (single_run (Some "Bogus"))
              (fresh (single_run (Some "Bogus")) home_only []))
    as [a s'|e s'] eqn:E.
  - vm_compute in E. discriminate.
  - refine (failed_construction_has_no_run_mode seqsee plain_env
              (single_run (Some "Bogus")) home_only [] e s' _ E).
    intros s. reflexivity.
Defined.

End startup_laws.
